(** * The WASM bump allocator of [src/wasm/stdlib.c]

    A shallow embedding of the allocator that zigdown ships for tree-sitter
    external scanners running in WebAssembly, together with the properties
    its specification states about it.

    The target is wasm32: [size_t], [uint32_t], [ptrdiff_t] and pointers are
    32 bits wide, so every pointer and size is a [Z] in [[0, 2^32)] and the
    arithmetic of the source is written with its wrap-around.  The three
    statics [heap_start], [heap_end] and [next] live in a record next to
    the linear memory they point into.  A load or a store outside the linear
    memory traps and ends the execution, so every operation runs in a small
    state-and-trap monad.

    What lies outside the file is modelled by what it is known to do: the
    two WebAssembly builtins [memory.size] and [memory.grow], with a host
    that grants pages up to a ceiling of its own, and the C library's
    [memset] and [memcpy]. *)

From Stdlib Require Import ZArith List Lia Bool.
Import ListNotations.
Local Open Scope Z_scope.

(** ** 32-bit arithmetic *)

Definition wrap32 (x : Z) : Z := x mod 2 ^ 32.

(** The value of a 32-bit pattern read as a signed [ptrdiff_t]. *)
Definition signed32 (x : Z) : Z := if x <? 2 ^ 31 then x else x - 2 ^ 32.

Definition u32 (x : Z) : Prop := 0 <= x < 2 ^ 32.

(** ** Constants of the source *)

Definition PAGESIZE : Z := 0x10000.
Definition MAX_HEAP_SIZE : Z := 4 * 1024 * 1024.
Definition NULL : Z := 0.

(** [sizeof(Region)]: one [size_t]; the flexible member [data[0]] adds
    nothing. *)
Definition SIZEOF_REGION : Z := 4.

(** The largest number of pages a 32-bit linear memory can have. *)
Definition WASM_MAX_PAGES : Z := 65536.

(** ** State *)

(** The three statics are kept in fields of their own, apart from [mem].
    In the program they are words of the same linear memory, placed by the
    linker below the heap.  The record is therefore true to the program for
    every run whose stores all go to the heap, at or above [heap_start].
    The [memset] of [calloc] and the [memcpy] of [realloc] through a null
    result store from address 0 up, outside the heap, and may hit those
    words: for such calls nothing below is stated about the statics. *)
Record State : Type := mkState {
  heap_start : Z;          (* static Region *heap_start *)
  heap_end : Z;            (* static Region *heap_end *)
  next : Z;                (* static Region *next, the bump cursor *)
  mem : Z -> Z;            (* linear memory, one byte per address *)
  pages : Z;               (* current size of the linear memory, in pages *)
  max_pages : Z            (* the host's ceiling for memory.grow *)
}.

Definition set_heap_start (v : Z) (s : State) : State :=
  mkState v (heap_end s) (next s) (mem s) (pages s) (max_pages s).
Definition set_heap_end (v : Z) (s : State) : State :=
  mkState (heap_start s) v (next s) (mem s) (pages s) (max_pages s).
Definition set_next (v : Z) (s : State) : State :=
  mkState (heap_start s) (heap_end s) v (mem s) (pages s) (max_pages s).
Definition set_mem (m : Z -> Z) (s : State) : State :=
  mkState (heap_start s) (heap_end s) (next s) m (pages s) (max_pages s).
Definition set_pages (p : Z) (s : State) : State :=
  mkState (heap_start s) (heap_end s) (next s) (mem s) p (max_pages s).

(** Size of the linear memory in bytes (not wrapped: this is the bound the
    engine checks accesses against). *)
Definition mem_bytes (s : State) : Z := pages s * PAGESIZE.

(** ** The state-and-trap monad *)

Inductive Res (A : Type) : Type :=
| Trap : Res A
| Ok : A -> State -> Res A.
Arguments Trap {A}.
Arguments Ok {A} _ _.

Definition M (A : Type) : Type := State -> Res A.

Definition ret {A} (a : A) : M A := fun s => Ok a s.
Definition bind {A B} (m : M A) (k : A -> M B) : M B :=
  fun s => match m s with
           | Trap => Trap
           | Ok a s' => k a s'
           end.
Definition gets {A} (f : State -> A) : M A := fun s => Ok (f s) s.
Definition modify (f : State -> State) : M unit := fun s => Ok tt (f s).

Notation "x <- m ;; k" := (bind m (fun x => k))
  (at level 61, m at next level, right associativity).
Notation "m ;;; k" := (bind m (fun _ => k))
  (at level 61, right associativity).

(** ** Linear memory *)

(** Little-endian 32-bit word at address [a]. *)
Definition le32 (m : Z -> Z) (a : Z) : Z :=
  m a + 2 ^ 8 * m (a + 1) + 2 ^ 16 * m (a + 2) + 2 ^ 24 * m (a + 3).

Definition put32 (m : Z -> Z) (a v : Z) : Z -> Z :=
  fun x =>
    if x =? a then v mod 256
    else if x =? a + 1 then (v / 2 ^ 8) mod 256
    else if x =? a + 2 then (v / 2 ^ 16) mod 256
    else if x =? a + 3 then (v / 2 ^ 24) mod 256
    else m x.

(** [i32.load] and [i32.store]: out of bounds accesses trap. *)
Definition load32 (a : Z) : M Z :=
  fun s => if a + 4 <=? mem_bytes s then Ok (le32 (mem s) a) s else Trap.

Definition store32 (a v : Z) : M unit :=
  fun s => if a + 4 <=? mem_bytes s
           then Ok tt (set_mem (put32 (mem s) a v) s) else Trap.

Definition fill (m : Z -> Z) (p c n : Z) : Z -> Z :=
  fun x => if (p <=? x) && (x <? p + n) then c mod 256 else m x.

Definition copy (m : Z -> Z) (dst src n : Z) : Z -> Z :=
  fun x => if (dst <=? x) && (x <? dst + n) then m (src + (x - dst)) else m x.

(** [memset] of the C library, which this file only declares through
    <string.h>: it stores [n] copies of the byte [c] from [p] on; a store
    outside the linear memory traps; no byte is stored when [n] is 0. *)
Definition memset (p c n : Z) : M unit :=
  fun s => if (n =? 0) || (p + n <=? mem_bytes s)
           then Ok tt (set_mem (fill (mem s) p c n) s) else Trap.

(** [memcpy] of the C library, declared through <string.h> as well: it
    copies [n] bytes from [src] to [dst]; an access outside the linear
    memory traps. *)
Definition memcpy (dst src n : Z) : M unit :=
  fun s => if (n =? 0) || ((dst + n <=? mem_bytes s) && (src + n <=? mem_bytes s))
           then Ok tt (set_mem (copy (mem s) dst src n) s) else Trap.

(** ** The host: the two WebAssembly memory builtins *)

(** [__builtin_wasm_memory_size(0)]: the current size in pages. *)
Definition memory_size : M Z := gets pages.

(** [__builtin_wasm_memory_grow(0, delta)]: on success the memory grows by
    [delta] pages and the previous size is returned; when the host refuses
    the result is [(size_t)-1] and nothing changes. *)
Definition host_grants (delta : Z) (s : State) : bool :=
  pages s + delta <=? Z.min (max_pages s) WASM_MAX_PAGES.

Definition memory_grow (delta : Z) : M Z :=
  fun s => if host_grants delta s
           then Ok (pages s) (set_pages (pages s + delta) s)
           else Ok (wrap32 (-1)) s.

(** ** The allocator *)

(** [((Region * )ptr) - 1] *)
Definition region_for_ptr (ptr : Z) : Z := wrap32 (ptr - SIZEOF_REGION).

(** [self->data], the address just after the header. *)
Definition region_data (self : Z) : Z := wrap32 (self + SIZEOF_REGION).

Definition region_after (self len : Z) : Z :=
  let address := wrap32 (region_data self + len) in
  let aligned := Z.land (wrap32 (address + 3)) (wrap32 (Z.lnot 0x3)) in
  aligned.

Definition get_heap_end : M Z :=
  p <- memory_size ;; ret (wrap32 (p * PAGESIZE)).

Definition new_page_count (size : Z) : Z :=
  wrap32 (wrap32 (size - 1) / PAGESIZE + 1).

Definition grow_heap (size : Z) : M bool :=
  r <- memory_grow (new_page_count size) ;;
  ret (negb (r =? MAX_HEAP_SIZE)).

Definition reset_heap (new_heap_start : Z) : M unit :=
  modify (set_heap_start new_heap_start) ;;;
  modify (set_next new_heap_start) ;;;
  e <- get_heap_end ;;
  modify (set_heap_end e).

(** The tail of [malloc], after the capacity checks. *)
Definition malloc_commit (size region_end : Z) : M Z :=
  n <- gets next ;;
  let result := region_data n in
  store32 n size ;;;
  modify (set_next region_end) ;;;
  ret result.

Definition malloc (size : Z) : M Z :=
  n <- gets next ;;
  let region_end := region_after n size in
  he <- gets heap_end ;;
  if he <? region_end then
    hs <- gets heap_start ;;
    if MAX_HEAP_SIZE <? signed32 (wrap32 (region_end - hs)) then ret NULL
    else
      grown <- grow_heap size ;;
      if negb grown then ret NULL
      else
        e <- get_heap_end ;;
        modify (set_heap_end e) ;;;
        malloc_commit size region_end
  else malloc_commit size region_end.

Definition free (ptr : Z) : M unit :=
  if ptr =? NULL then ret tt
  else
    let region := region_for_ptr ptr in
    sz <- load32 region ;;
    let region_end := region_after region sz in
    n <- gets next ;;
    if region_end =? n then modify (set_next region) else ret tt.

Definition calloc (count size : Z) : M Z :=
  result <- malloc (wrap32 (count * size)) ;;
  memset result 0 (wrap32 (count * size)) ;;;
  ret result.

(** The last two lines of [realloc]:
    [memcpy(result, &region->data, region->size); return result;].  The
    size is read from the header again, after [malloc] has run. *)
Definition copy_block (result region : Z) : M Z :=
  sz <- load32 region ;;
  memcpy result (region_data region) sz ;;;
  ret result.

Definition realloc (ptr new_size : Z) : M Z :=
  if ptr =? NULL then malloc new_size
  else
    let region := region_for_ptr ptr in
    sz <- load32 region ;;
    let region_end := region_after region sz in
    n <- gets next ;;
    if region_end =? n then
      modify (set_next region) ;;;
      malloc new_size
    else
      result <- malloc new_size ;;
      copy_block result region.

(** ** Sequences of calls *)

(** [malloc] for each size in turn, collecting the returned pointers. *)
Fixpoint malloc_all (sizes : list Z) : M (list Z) :=
  match sizes with
  | [] => ret []
  | sz :: rest =>
      p <- malloc sz ;;
      ps <- malloc_all rest ;;
      ret (p :: ps)
  end.

(** [free] for each pointer in turn. *)
Fixpoint free_all (ptrs : list Z) : M unit :=
  match ptrs with
  | [] => ret tt
  | p :: rest => free p ;;; free_all rest
  end.

(** ** The call surface *)

(** One call of the allocator's interface. *)
Inductive call : Type :=
| ResetHeap (new_heap_start : Z)
| Malloc (size : Z)
| Free (ptr : Z)
| Calloc (count size : Z)
| Realloc (ptr new_size : Z).

(** Running a call; the two [void] functions yield 0. *)
Definition exec (c : call) : M Z :=
  match c with
  | ResetHeap h => reset_heap h ;;; ret 0
  | Malloc size => malloc size
  | Free ptr => free ptr ;;; ret 0
  | Calloc count size => calloc count size
  | Realloc ptr new_size => realloc ptr new_size
  end.

(** ** Predicates on states and calls *)

(** The layout of a run of blocks: the first header sits at [header], each
    payload address is 4-byte aligned and sits one header past its block's
    header, each block's computed end is the header of the next block, and
    the end of the last block is [final]. *)
Fixpoint laid_out (header : Z) (sizes ptrs : list Z) (final : Z) : Prop :=
  match sizes, ptrs with
  | [], [] => final = header
  | sz :: sizes', p :: ptrs' =>
      p mod 4 = 0 /\ region_for_ptr p = header /\
      laid_out (region_after header sz) sizes' ptrs' final
  | _, _ => False
  end.

(** The invariant of the specification's data model. *)
Definition heap_inv (s : State) : Prop :=
  heap_start s <= next s /\ next s <= heap_end s.

(** The footprint of a block of [size] bytes at cursor [c] stays inside the
    32-bit address space: header, payload and alignment padding. *)
Definition no_wrap (c size : Z) : Prop :=
  0 <= c /\ 0 <= size /\ c + SIZEOF_REGION + size + 3 < 2 ^ 32.

(** None of the blocks of the given sizes, laid out one after the other
    from cursor [c], wraps around the address space. *)
Fixpoint no_wrap_all (c : Z) (sizes : list Z) : Prop :=
  match sizes with
  | [] => True
  | sz :: rest => no_wrap c sz /\ no_wrap_all (region_after c sz) rest
  end.

(** The request needs no growth: its footprint does not wrap and ends at or
    below [heap_end]. *)
Definition fits (size : Z) (s : State) : Prop :=
  no_wrap (next s) size /\ region_after (next s) size <= heap_end s.

(** The request does not wrap, the host grants the pages [grow_heap] asks
    for, and the memory so grown reaches the end of the new block. *)
Definition grows_enough (size : Z) (s : State) : Prop :=
  no_wrap (next s) size /\
  host_grants (new_page_count size) s = true /\
  region_after (next s) size <=
    wrap32 ((pages s + new_page_count size) * PAGESIZE).

(** There is room for the request, at once or after a sufficient growth. *)
Definition has_room (size : Z) (s : State) : Prop :=
  fits size s \/ grows_enough size s.

(** The statics are addresses of a 32-bit memory: [heap_start] is not
    negative and [heap_end] is at most the last page boundary. *)
Definition regs_ok (s : State) : Prop :=
  0 <= heap_start s /\ heap_end s <= 2 ^ 32 - PAGESIZE.

(** [ptr] is null or the payload address of a block whose header lies
    between [heap_start] and the cursor. *)
Definition null_or_block (ptr : Z) (s : State) : Prop :=
  ptr = NULL \/ heap_start s <= region_for_ptr ptr <= next s.

(** The block of [ptr] ends at the cursor: the test [free] and [realloc]
    make. *)
Definition is_tail (ptr : Z) (s : State) : bool :=
  region_after (region_for_ptr ptr) (le32 (mem s) (region_for_ptr ptr))
  =? next s.

(** The calls for which the invariant is shown to be kept, given the
    result [r] they return.  A reset to an address inside the current
    memory.  A free of null or of a block of this heap.  An allocate that
    returns null or has room for its request.  A zero_allocate that returns
    a block it has room for, or null with nothing to fill.  A reallocate of
    null, or of the tail block of this heap, that returns null or has room
    measured from the cursor [malloc] runs from (rewound to the header for
    the tail block); and a reallocate of another block of this heap that
    returns a block it has room for.  Left out are the calls that fill or
    copy through a null result: they store from address 0 up, outside the
    heap. *)
Definition covered (c : call) (s : State) (r : Z) : Prop :=
  match c with
  | ResetHeap h => 0 <= h <= wrap32 (pages s * PAGESIZE)
  | Malloc size =>
      regs_ok s /\ heap_inv s /\ (r = NULL \/ has_room size s)
  | Free ptr =>
      regs_ok s /\ heap_inv s /\ null_or_block ptr s
  | Calloc count size =>
      regs_ok s /\ heap_inv s /\
      ((r = NULL /\ wrap32 (count * size) = 0) \/
       (r <> NULL /\ has_room (wrap32 (count * size)) s))
  | Realloc ptr new_size =>
      regs_ok s /\ heap_inv s /\ null_or_block ptr s /\
      (if ptr =? NULL then r = NULL \/ has_room new_size s
       else if is_tail ptr s
            then r = NULL \/
                 has_room new_size (set_next (region_for_ptr ptr) s)
            else r <> NULL /\ has_room new_size s)
  end.

(** The calls whose stores all go to the heap: the cursor is at or above
    [heap_start], and no fill or copy runs through a null result. *)
Definition stores_in_heap (c : call) (s : State) (r : Z) : Prop :=
  match c with
  | ResetHeap _ => True
  | Malloc _ | Free _ => heap_start s <= next s
  | Calloc _ _ => heap_start s <= next s /\ r <> NULL
  | Realloc ptr _ =>
      heap_start s <= next s /\
      (r <> NULL \/ ptr = NULL \/ is_tail ptr s = true)
  end.

(** The value a run returned, if it did not trap. *)
Definition returned {A} (r : Res A) : option A :=
  match r with
  | Trap => None
  | Ok a _ => Some a
  end.

(** The payloads of a run of blocks lie apart: each one starts at least a
    header past [lo], the end of the payload before it, and the last one
    ends at or below [hi]. *)
Fixpoint payloads_apart (lo : Z) (sizes ptrs : list Z) (hi : Z) : Prop :=
  match sizes, ptrs with
  | [], [] => lo <= hi
  | sz :: sizes', p :: ptrs' =>
      lo + SIZEOF_REGION <= p /\ payloads_apart (p + sz) sizes' ptrs' hi
  | _, _ => False
  end.

(** ** Concrete states for the examples *)

Definition zero_mem : Z -> Z := fun _ => 0.

(** One page of memory, the heap starting at 1024 and still empty, and a
    host that will not grant another page. *)
Definition one_page_heap : State := mkState 1024 65536 1024 zero_mem 1 1.

(** A heap of 65 pages whose cursor is 8 bytes short of [heap_end], in a
    memory whose bytes are all 0xAA. *)
Definition full_heap : State :=
  mkState 1024 4259840 4259832 (fun _ => 0xAA) 65 65.

(** The same heap under a host that grants pages up to the 32-bit limit,
    and what [malloc(70000)] makes of it: two more pages. *)
Definition growable_heap : State := mkState 1024 65536 1024 zero_mem 1 65536.
Definition grown_heap : State :=
  mkState 1024 196608 71028 (put32 zero_mem 1024 70000) 3 65536.

(** [one_page_heap] after [malloc(8)]: one live block, payload at 1028. *)
Definition one_block_heap : State :=
  mkState 1024 65536 1036 (put32 zero_mem 1024 8) 1 1.

(** [one_block_heap] after another [malloc(8)]: payloads at 1028 and
    1040. *)
Definition two_block_heap : State :=
  mkState 1024 65536 1048 (put32 (put32 zero_mem 1024 8) 1036 8) 1 1.

(** One live block of 64500 bytes, which leaves 8 bytes below
    [heap_end]. *)
Definition big_tail_heap : State :=
  mkState 1024 65536 65528 (put32 zero_mem 1024 64500) 1 1.

(** One page of memory used up to the last byte, under a host that
    grants pages. *)
Definition brim_full_heap : State :=
  mkState 1024 65536 65536 zero_mem 1 65536.

(** ** Arithmetic lemmas *)

(** Linear arithmetic with the word size spelled out and divisions by
    constants turned into their defining equations. *)
Ltac zlia :=
  change (2 ^ 32) with 4294967296 in *;
  change (2 ^ 31) with 2147483648 in *;
  Z.to_euclidean_division_equations; lia.

Lemma wrap32_small x : u32 x -> wrap32 x = x.
Proof. intros H. unfold wrap32. apply Z.mod_small. exact H. Qed.

Lemma wrap32_range x : u32 (wrap32 x).
Proof. unfold u32, wrap32. apply Z.mod_pos_bound. lia. Qed.

Lemma wrap32_add_l x y : wrap32 (wrap32 x + y) = wrap32 (x + y).
Proof. unfold wrap32. apply Zplus_mod_idemp_l. Qed.

Lemma testbit_u32_high x i : u32 x -> 32 <= i -> Z.testbit x i = false.
Proof.
  intros Hx Hi. rewrite <- (Z.mod_small x (2 ^ 32)) by exact Hx.
  apply Z.mod_pow2_bits_high. lia.
Qed.

Lemma testbit_mask i :
  0 <= i -> Z.testbit (2 ^ 32 - 4) i = (2 <=? i) && (i <? 32).
Proof.
  intros Hi.
  replace (2 ^ 32 - 4) with (Z.shiftl (Z.ones 30) 2) by reflexivity.
  rewrite Z.shiftl_spec by exact Hi.
  destruct (Z.leb_spec 2 i) as [H2 | H2]; simpl.
  - destruct (Z.ltb_spec i 32) as [H32 | H32].
    + apply Z.ones_spec_low. lia.
    + apply Z.ones_spec_high. lia.
  - apply Z.testbit_neg_r. lia.
Qed.

(** Clearing the two low bits of a 32-bit value rounds it down to a
    multiple of 4. *)
Lemma land_mask x : u32 x -> Z.land x (2 ^ 32 - 4) = 4 * (x / 4).
Proof.
  intros Hx. apply Z.bits_inj'. intros i Hi.
  rewrite Z.land_spec, testbit_mask by exact Hi.
  replace (4 * (x / 4)) with (Z.shiftl (Z.shiftr x 2) 2).
  2:{ rewrite Z.shiftl_mul_pow2, Z.shiftr_div_pow2 by lia.
      change (2 ^ 2) with 4. lia. }
  rewrite Z.shiftl_spec by exact Hi.
  destruct (Z.leb_spec 2 i) as [H2 | H2]; simpl.
  - rewrite Z.shiftr_spec by lia. replace (i - 2 + 2) with i by lia.
    destruct (Z.ltb_spec i 32) as [H32 | H32].
    + apply andb_true_r.
    + rewrite andb_false_r. symmetry. apply testbit_u32_high; assumption.
  - rewrite andb_false_r. symmetry. apply Z.testbit_neg_r. lia.
Qed.

Lemma region_after_eq self len :
  region_after self len = 4 * (wrap32 (self + len + 7) / 4).
Proof.
  unfold region_after, region_data, SIZEOF_REGION.
  rewrite wrap32_add_l, <- Z.add_assoc, wrap32_add_l.
  replace (self + 4 + (len + 3)) with (self + len + 7) by lia.
  change (wrap32 (Z.lnot 3)) with (2 ^ 32 - 4).
  apply land_mask, wrap32_range.
Qed.

Lemma region_after_aligned self len : region_after self len mod 4 = 0.
Proof.
  rewrite region_after_eq, Z.mul_comm. apply Z.mod_mul. lia.
Qed.

Lemma region_after_u32 self len : u32 (region_after self len).
Proof.
  rewrite region_after_eq. pose proof (wrap32_range (self + len + 7)) as H.
  unfold u32 in *. zlia.
Qed.

Lemma region_after_no_wrap c size :
  no_wrap c size -> region_after c size = 4 * ((c + size + 7) / 4).
Proof.
  unfold no_wrap, SIZEOF_REGION. intros H.
  rewrite region_after_eq, wrap32_small; [reflexivity | unfold u32; zlia].
Qed.

(** Without wrap-around the end of a block lies past its payload, less
    than four bytes of padding away. *)
Lemma region_after_bounds c size :
  no_wrap c size ->
  c + SIZEOF_REGION + size <= region_after c size <= c + SIZEOF_REGION + size + 3.
Proof.
  intros H. rewrite (region_after_no_wrap _ _ H).
  unfold no_wrap, SIZEOF_REGION in *. zlia.
Qed.

Lemma region_after_mono c a b :
  no_wrap c b -> 0 <= a <= b -> region_after c a <= region_after c b.
Proof.
  intros Hb Hab.
  assert (Ha : no_wrap c a) by (unfold no_wrap in *; lia).
  rewrite (region_after_no_wrap _ _ Ha), (region_after_no_wrap _ _ Hb).
  assert ((c + a + 7) / 4 <= (c + b + 7) / 4) by (apply Z.div_le_mono; lia).
  lia.
Qed.

Lemma region_data_small c : 0 <= c -> c + SIZEOF_REGION < 2 ^ 32 ->
  region_data c = c + SIZEOF_REGION.
Proof.
  intros. unfold region_data. apply wrap32_small.
  unfold u32, SIZEOF_REGION in *. zlia.
Qed.

Lemma region_for_ptr_data c : u32 c -> region_for_ptr (region_data c) = c.
Proof.
  intros Hc. unfold region_for_ptr, region_data, wrap32.
  rewrite Zminus_mod_idemp_l.
  replace (c + SIZEOF_REGION - SIZEOF_REGION) with c by lia.
  apply Z.mod_small. exact Hc.
Qed.

(** ** Memory lemmas *)

Lemma le32_put32 m a v : u32 v -> le32 (put32 m a v) a = v.
Proof.
  intros Hv. unfold le32, put32.
  rewrite Z.eqb_refl.
  replace (a + 1 =? a) with false by (symmetry; apply Z.eqb_neq; lia).
  replace (a + 2 =? a) with false by (symmetry; apply Z.eqb_neq; lia).
  replace (a + 3 =? a) with false by (symmetry; apply Z.eqb_neq; lia).
  replace (a + 2 =? a + 1) with false by (symmetry; apply Z.eqb_neq; lia).
  replace (a + 3 =? a + 1) with false by (symmetry; apply Z.eqb_neq; lia).
  replace (a + 3 =? a + 2) with false by (symmetry; apply Z.eqb_neq; lia).
  rewrite !Z.eqb_refl.
  unfold u32 in Hv.
  change (2 ^ 8) with 256. change (2 ^ 16) with 65536.
  change (2 ^ 24) with 16777216. change (2 ^ 32) with 4294967296 in Hv.
  pose proof (Z.div_mod v 256 ltac:(lia)).
  pose proof (Z.div_mod (v / 256) 256 ltac:(lia)).
  pose proof (Z.div_mod (v / 256 / 256) 256 ltac:(lia)).
  rewrite Z.div_div in * by lia.
  change (256 * 256) with 65536 in *.
  pose proof (Z.div_mod (v / 65536 / 256) 256 ltac:(lia)).
  rewrite Z.div_div in * by lia.
  change (65536 * 256) with 16777216 in *.
  assert (v / 16777216 < 256) by (apply Z.div_lt_upper_bound; lia).
  assert (0 <= v / 16777216) by (apply Z.div_pos; lia).
  rewrite (Z.mod_small (v / 16777216) 256) by lia.
  lia.
Qed.

Lemma put32_outside m a v x : x < a \/ a + 4 <= x -> put32 m a v x = m x.
Proof.
  intros H. unfold put32.
  replace (x =? a) with false by (symmetry; apply Z.eqb_neq; lia).
  replace (x =? a + 1) with false by (symmetry; apply Z.eqb_neq; lia).
  replace (x =? a + 2) with false by (symmetry; apply Z.eqb_neq; lia).
  replace (x =? a + 3) with false by (symmetry; apply Z.eqb_neq; lia).
  reflexivity.
Qed.

Lemma le32_outside m a v b : b + 4 <= a \/ a + 4 <= b ->
  le32 (put32 m a v) b = le32 m b.
Proof.
  intros H. unfold le32. rewrite !put32_outside by lia. reflexivity.
Qed.

(** ** What one call does *)

(** Reduce the projections of updated states, and nothing else. *)
Ltac sregs :=
  cbn [heap_start heap_end next mem pages max_pages
       set_heap_start set_heap_end set_next set_mem set_pages] in *.

Ltac inv_ok :=
  repeat match goal with
         | H : Ok _ _ = Ok _ _ |- _ => inversion H; subst; clear H
         | H : Trap = Ok _ _ |- _ => discriminate H
         end.

Lemma malloc_commit_eq size region_end s :
  malloc_commit size region_end s =
  if next s + 4 <=? mem_bytes s
  then Ok (region_data (next s))
          (set_next region_end (set_mem (put32 (mem s) (next s) size) s))
  else Trap.
Proof.
  unfold malloc_commit, bind, gets, store32, modify, ret.
  destruct (next s + 4 <=? mem_bytes s); reflexivity.
Qed.

Lemma new_page_count_range size : 1 <= new_page_count size <= 65536.
Proof.
  unfold new_page_count. pose proof (wrap32_range (size - 1)) as H.
  unfold u32, PAGESIZE in *. rewrite wrap32_small; [zlia | unfold u32; zlia].
Qed.

(** [grow_heap] never traps and touches nothing but the page count, which
    it never lowers.  Its result is always true: [memory.grow] returns the
    previous page count, at most 65536, or [(size_t)-1], and neither is
    [MAX_HEAP_SIZE]. *)
Lemma grow_heap_cases size s :
  exists s',
    grow_heap size s = Ok true s' /\
    heap_start s' = heap_start s /\ heap_end s' = heap_end s /\
    next s' = next s /\ mem s' = mem s /\ max_pages s' = max_pages s /\
    pages s <= pages s' /\
    (host_grants (new_page_count size) s = true ->
     pages s' = pages s + new_page_count size).
Proof.
  unfold grow_heap, memory_grow, host_grants, bind, ret.
  pose proof (new_page_count_range size) as Hd.
  set (d := new_page_count size) in *.
  destruct (Z.leb_spec (pages s + d) (Z.min (max_pages s) WASM_MAX_PAGES)) as [Hg | Hg].
  - exists (set_pages (pages s + d) s). split.
    + unfold WASM_MAX_PAGES, MAX_HEAP_SIZE in *.
      destruct (Z.eqb_spec (pages s) (4 * 1024 * 1024)); [lia | reflexivity].
    + sregs. intuition lia.
  - exists s. split; [reflexivity |]. intuition (lia || discriminate).
Qed.

(** The ways [malloc] can return: through its first [return NULL], with the
    state untouched, or by writing the header at the cursor and bumping it,
    with [heap_end] either left alone or read again after [grow_heap]. *)
Lemma malloc_cases size s p s' :
  malloc size s = Ok p s' ->
  (p = NULL /\ s' = s /\ heap_end s < region_after (next s) size /\
   MAX_HEAP_SIZE < signed32 (wrap32 (region_after (next s) size - heap_start s)))
  \/
  (p = region_data (next s) /\
   heap_start s' = heap_start s /\ max_pages s' = max_pages s /\
   pages s <= pages s' /\
   next s' = region_after (next s) size /\
   mem s' = put32 (mem s) (next s) size /\
   next s + 4 <= mem_bytes s' /\
   ((heap_end s' = heap_end s /\ pages s' = pages s /\
     region_after (next s) size <= heap_end s)
    \/
    (heap_end s' = wrap32 (pages s' * PAGESIZE) /\
     heap_end s < region_after (next s) size /\
     (host_grants (new_page_count size) s = true ->
      pages s' = pages s + new_page_count size)))).
Proof.
  unfold malloc, bind, gets.
  destruct (Z.ltb_spec (heap_end s) (region_after (next s) size)) as [Hlt | Hge].
  - destruct (Z.ltb_spec MAX_HEAP_SIZE
                (signed32 (wrap32 (region_after (next s) size - heap_start s))))
      as [Hcap | Hcap].
    + unfold ret. intros H. inv_ok. left. auto.
    + destruct (grow_heap_cases size s)
        as (s1 & Hg & Hhs & Hhe & Hn & Hm & Hmx & Hp & Hgr).
      rewrite Hg. simpl.
      unfold get_heap_end, memory_size, bind, gets, ret, modify.
      rewrite malloc_commit_eq. simpl. rewrite Hn.
      destruct (Z.leb_spec (next s + 4)
                  (mem_bytes (set_heap_end (wrap32 (pages s1 * PAGESIZE)) s1)))
        as [Hb | Hb]; intros H; inv_ok.
      right. simpl. rewrite Hm. repeat split; auto.
  - rewrite malloc_commit_eq.
    destruct (Z.leb_spec (next s + 4) (mem_bytes s)) as [Hb | Hb];
      intros H; inv_ok.
    right. simpl. repeat split; auto; lia.
Qed.

(** A request that needs no growth writes its header and bumps the
    cursor. *)
Lemma malloc_bump size s :
  region_after (next s) size <= heap_end s ->
  next s + 4 <= mem_bytes s ->
  malloc size s =
  Ok (region_data (next s))
     (set_next (region_after (next s) size)
        (set_mem (put32 (mem s) (next s) size) s)).
Proof.
  intros Hfit Hb. unfold malloc, bind, gets.
  destruct (Z.ltb_spec (heap_end s) (region_after (next s) size)); [lia |].
  rewrite malloc_commit_eq.
  destruct (Z.leb_spec (next s + 4) (mem_bytes s)); [reflexivity | lia].
Qed.

(** [free] never touches anything but the cursor. *)
Lemma free_cases ptr s r s' :
  free ptr s = Ok r s' ->
  s' = s \/
  (ptr <> NULL /\
   region_after (region_for_ptr ptr) (le32 (mem s) (region_for_ptr ptr)) = next s /\
   s' = set_next (region_for_ptr ptr) s).
Proof.
  unfold free. destruct (Z.eqb_spec ptr NULL) as [E | E].
  - unfold ret. intros H. inv_ok. auto.
  - unfold bind, load32, gets.
    destruct (region_for_ptr ptr + 4 <=? mem_bytes s); [| discriminate].
    destruct (Z.eqb_spec
                (region_after (region_for_ptr ptr) (le32 (mem s) (region_for_ptr ptr)))
                (next s)) as [Et | Et];
      unfold modify, ret; intros H; inv_ok; auto.
Qed.

(** Freeing the tail block rewinds the cursor to its header. *)
Lemma free_tail ptr s :
  ptr <> NULL ->
  region_for_ptr ptr + 4 <= mem_bytes s ->
  region_after (region_for_ptr ptr) (le32 (mem s) (region_for_ptr ptr)) = next s ->
  free ptr s = Ok tt (set_next (region_for_ptr ptr) s).
Proof.
  intros Hp Hb Ht. unfold free.
  destruct (Z.eqb_spec ptr NULL); [contradiction |].
  unfold bind, load32, gets.
  destruct (Z.leb_spec (region_for_ptr ptr + 4) (mem_bytes s)); [| lia].
  rewrite Ht, Z.eqb_refl. reflexivity.
Qed.

(** Freeing any other block does nothing. *)
Lemma free_non_tail ptr s :
  region_for_ptr ptr + 4 <= mem_bytes s ->
  region_after (region_for_ptr ptr) (le32 (mem s) (region_for_ptr ptr)) <> next s ->
  free ptr s = Ok tt s.
Proof.
  intros Hb Ht. unfold free.
  destruct (Z.eqb_spec ptr NULL); [reflexivity |].
  unfold bind, load32, gets.
  destruct (Z.leb_spec (region_for_ptr ptr + 4) (mem_bytes s)); [| lia].
  destruct (Z.eqb_spec
              (region_after (region_for_ptr ptr) (le32 (mem s) (region_for_ptr ptr)))
              (next s)); [contradiction | reflexivity].
Qed.

(** ** Keeping the invariant *)

Lemma region_after_mono_cursor c1 c2 size :
  no_wrap c2 size -> 0 <= c1 <= c2 ->
  region_after c1 size <= region_after c2 size.
Proof.
  intros H2 Hc.
  assert (H1 : no_wrap c1 size) by (unfold no_wrap in *; lia).
  rewrite (region_after_no_wrap _ _ H1), (region_after_no_wrap _ _ H2).
  assert ((c1 + size + 7) / 4 <= (c2 + size + 7) / 4)
    by (apply Z.div_le_mono; lia).
  lia.
Qed.

Lemma wrap32_pages_bound n : wrap32 (n * PAGESIZE) <= 2 ^ 32 - PAGESIZE.
Proof. unfold wrap32, PAGESIZE. zlia. Qed.

Lemma malloc_keeps_inv size s p s' :
  regs_ok s -> heap_inv s ->
  malloc size s = Ok p s' ->
  p = NULL \/ has_room size s ->
  heap_inv s' /\ regs_ok s'.
Proof.
  intros Hr Hi Hm Hcov.
  destruct (malloc_cases _ _ _ _ Hm)
    as [(_ & -> & _) | (Ep & Hhs & _ & _ & En & _ & _ & Hpath)];
    [auto |].
  unfold regs_ok, heap_inv in *.
  destruct Hcov as [E0 | Hroom].
  { rewrite region_data_small in Ep by (unfold SIZEOF_REGION, PAGESIZE in *; zlia).
    unfold NULL, SIZEOF_REGION, PAGESIZE in *. lia. }
  assert (Hw : no_wrap (next s) size)
    by (destruct Hroom as [[Hw _] | [Hw _]]; exact Hw).
  pose proof (region_after_bounds _ _ Hw) as Hbd.
  unfold no_wrap, SIZEOF_REGION in *.
  rewrite Hhs, En.
  destruct Hpath as [(Hhe & _ & Hle) | (Hhe & Hlt & Hgr)].
  - rewrite Hhe. lia.
  - destruct Hroom as [[_ Hle] | (_ & Hg & Hle)]; [lia |].
    rewrite Hhe, (Hgr Hg).
    pose proof (wrap32_pages_bound (pages s + new_page_count size)).
    lia.
Qed.

Lemma free_keeps_inv ptr s r s' :
  regs_ok s -> heap_inv s ->
  free ptr s = Ok r s' ->
  null_or_block ptr s ->
  heap_inv s' /\ regs_ok s'.
Proof.
  intros Hr Hi Hf Hb.
  destruct (free_cases _ _ _ _ Hf) as [-> | (Hp & _ & ->)]; [auto |].
  destruct Hb as [E0 | Hb]; [contradiction |].
  unfold regs_ok, heap_inv in *. sregs. lia.
Qed.

(** ** Runs of calls *)

(** Unfolding one step of [malloc_all]. *)
Lemma malloc_all_cons sz rest s ps s' :
  malloc_all (sz :: rest) s = Ok ps s' ->
  exists p s1 ps',
    malloc sz s = Ok p s1 /\ malloc_all rest s1 = Ok ps' s' /\ ps = p :: ps'.
Proof.
  simpl. unfold bind, ret.
  destruct (malloc sz s) as [| p s1]; [discriminate |].
  destruct (malloc_all rest s1) as [| ps' s2] eqn:Hrest; [discriminate |].
  intros H. inv_ok. exists p, s1, ps'. auto.
Qed.

Lemma region_data_aligned c : c mod 4 = 0 -> region_data c mod 4 = 0.
Proof. unfold region_data, wrap32, SIZEOF_REGION. intros H. zlia. Qed.

Lemma malloc_all_layout sizes :
  forall s ps s',
    u32 (next s) -> next s mod 4 = 0 ->
    malloc_all sizes s = Ok ps s' ->
    Forall (fun p => p <> NULL) ps ->
    laid_out (next s) sizes ps (next s').
Proof.
  induction sizes as [| sz rest IH]; intros s ps s' Hu Hal Hrun Hnn.
  - simpl in Hrun. unfold ret in Hrun. inv_ok. reflexivity.
  - destruct (malloc_all_cons _ _ _ _ _ Hrun) as (p & s1 & ps' & HA & Hrest & ->).
    inversion Hnn as [| ? ? Hp Hnn']; subst.
    destruct (malloc_cases _ _ _ _ HA)
      as [(E0 & _) | (Ep & _ & _ & _ & En & _)]; [contradiction |].
    simpl. split; [| split].
    + rewrite Ep. apply region_data_aligned. exact Hal.
    + rewrite Ep. apply region_for_ptr_data. exact Hu.
    + rewrite <- En. apply IH; try assumption; rewrite En.
      * apply region_after_u32.
      * apply region_after_aligned.
Qed.

(** A run of genuine allocations only grows the memory, keeps
    [heap_start], moves the cursor forward and writes nothing below the
    cursor it started from. *)
Lemma malloc_all_frame sizes :
  forall s ps s',
    no_wrap_all (next s) sizes ->
    malloc_all sizes s = Ok ps s' ->
    Forall (fun p => p <> NULL) ps ->
    pages s <= pages s' /\ heap_start s' = heap_start s /\
    next s <= next s' /\
    forall a, a < next s -> mem s' a = mem s a.
Proof.
  induction sizes as [| sz rest IH]; intros s ps s' Hw Hrun Hnn.
  - simpl in Hrun. unfold ret in Hrun. inv_ok.
    repeat split; try lia. 
  - destruct (malloc_all_cons _ _ _ _ _ Hrun) as (p & s1 & ps' & HA & Hrest & ->).
    inversion Hnn as [| ? ? Hp Hnn']; subst.
    destruct Hw as [Hw Hws].
    destruct (malloc_cases _ _ _ _ HA)
      as [(E0 & _) | (Ep & Hhs & _ & Hpg & En & Em & _)]; [contradiction |].
    rewrite <- En in Hws.
    destruct (IH _ _ _ Hws Hrest Hnn') as (Hpg' & Hhs' & Hn' & Hm').
    pose proof (region_after_bounds _ _ Hw) as Hbd.
    unfold no_wrap, SIZEOF_REGION in *.
    repeat split; try lia; try congruence.
    intros a Ha. rewrite Hm' by lia. rewrite Em. apply put32_outside. lia.
Qed.

Lemma free_all_app l1 l2 s :
  free_all (l1 ++ l2) s = (free_all l1 ;;; free_all l2) s.
Proof.
  revert s. induction l1 as [| p l1 IH]; intros s; simpl.
  - reflexivity.
  - unfold bind. destruct (free p s) as [| [] s1]; [reflexivity |].
    rewrite IH. reflexivity.
Qed.

(** Freeing the pointers of a run of genuine allocations, last one first,
    takes the cursor back to where the run started and changes nothing
    else. *)
Lemma free_all_rev_rewinds sizes :
  forall s ps s',
    no_wrap_all (next s) sizes ->
    malloc_all sizes s = Ok ps s' ->
    Forall (fun p => p <> NULL) ps ->
    free_all (rev ps) s' = Ok tt (set_next (next s) s').
Proof.
  induction sizes as [| sz rest IH]; intros s ps s' Hw Hrun Hnn.
  - simpl in Hrun. unfold ret in Hrun. inv_ok. simpl. unfold ret.
    destruct s'; reflexivity.
  - destruct (malloc_all_cons _ _ _ _ _ Hrun) as (p & s1 & ps' & HA & Hrest & ->).
    inversion Hnn as [| ? ? Hp Hnn']; subst.
    destruct Hw as [Hw Hws].
    destruct (malloc_cases _ _ _ _ HA)
      as [(E0 & _) | (Ep & Hhs & _ & Hpg & En & Em & Hb & _)]; [contradiction |].
    rewrite <- En in Hws.
    destruct (malloc_all_frame _ _ _ _ Hws Hrest Hnn') as (Hpg' & _ & Hn' & Hm').
    pose proof (region_after_bounds _ _ Hw) as Hbd.
    assert (Hu : u32 (next s)) by (unfold no_wrap, u32, SIZEOF_REGION in *; zlia).
    assert (Hus : u32 sz) by (unfold no_wrap, u32, SIZEOF_REGION in *; zlia).
    assert (Er : region_for_ptr p = next s)
      by (rewrite Ep; apply region_for_ptr_data; exact Hu).
    simpl rev. rewrite free_all_app. unfold bind.
    rewrite (IH _ _ _ Hws Hrest Hnn'). simpl free_all. unfold bind.
    rewrite free_tail.
    + unfold ret. rewrite Er. destruct s'; reflexivity.
    + exact Hp.
    + rewrite Er. unfold mem_bytes, PAGESIZE in *. simpl. nia.
    + rewrite Er. simpl.
      assert (Hh : le32 (mem s') (next s) = sz).
      { assert (H0 : 0 <= sz) by apply Hus.
        unfold le32. unfold SIZEOF_REGION in *.
        rewrite !Hm' by lia. rewrite Em. apply le32_put32. exact Hus. }
      rewrite Hh. symmetry. exact En.
Qed.

(** ** More about single calls *)

Lemma le32_ext m m' a :
  (forall x, a <= x < a + 4 -> m' x = m x) -> le32 m' a = le32 m a.
Proof. intros H. unfold le32. rewrite !H by lia. reflexivity. Qed.

(** [malloc] traps only when the header it writes lies outside the
    memory. *)
Lemma malloc_returns size s :
  next s + 4 <= mem_bytes s -> exists p s', malloc size s = Ok p s'.
Proof.
  intros Hb. unfold malloc, bind, gets.
  destruct (heap_end s <? region_after (next s) size).
  - destruct (MAX_HEAP_SIZE <?
              signed32 (wrap32 (region_after (next s) size - heap_start s))).
    + eexists _, _. reflexivity.
    + destruct (grow_heap_cases size s)
        as (s1 & Hg & _ & _ & Hn1 & _ & _ & Hp1 & _).
      rewrite Hg. cbv beta iota. unfold negb.
      unfold get_heap_end, memory_size, bind, gets, ret, modify.
      rewrite malloc_commit_eq. sregs. unfold mem_bytes in *. sregs.
      rewrite Hn1. unfold PAGESIZE in *.
      destruct (Z.leb_spec (next s + 4) (pages s1 * 65536)); [| nia].
      eexists _, _. reflexivity.
  - rewrite malloc_commit_eq.
    destruct (Z.leb_spec (next s + 4) (mem_bytes s)); [| lia].
    eexists _, _. reflexivity.
Qed.

(** A [malloc] that returned a block either needed no growth or passed the
    capacity check. *)
Lemma malloc_success_cap size s p s' :
  malloc size s = Ok p s' -> p <> NULL ->
  region_after (next s) size <= heap_end s \/
  signed32 (wrap32 (region_after (next s) size - heap_start s))
    <= MAX_HEAP_SIZE.
Proof.
  unfold malloc, bind, gets.
  destruct (Z.ltb_spec (heap_end s) (region_after (next s) size)); [| auto].
  destruct (Z.ltb_spec MAX_HEAP_SIZE
              (signed32 (wrap32 (region_after (next s) size - heap_start s))));
    [| auto].
  unfold ret. intros Hm Hp. inv_ok. contradiction.
Qed.

(** [copy_block] returns the pointer it was given and changes nothing but
    bytes of memory. *)
Lemma copy_block_cases q region s1 r s' :
  copy_block q region s1 = Ok r s' ->
  r = q /\
  s' = set_mem (copy (mem s1) q (region_data region) (le32 (mem s1) region)) s1.
Proof.
  unfold copy_block, bind, load32, memcpy, ret.
  destruct (region + 4 <=? mem_bytes s1); [| discriminate].
  match goal with
  | |- (match (if ?b then _ else _) with _ => _ end) = _ -> _ => destruct b
  end; intros H; inv_ok; auto.
Qed.

(** What every call leaves alone: the memory never shrinks, the host's
    ceiling stays, [heap_start] moves only by a reset, and [heap_end]
    either stays with the page count or is read again from it. *)
Lemma malloc_frame size s p s' :
  malloc size s = Ok p s' ->
  pages s <= pages s' /\ max_pages s' = max_pages s /\
  heap_start s' = heap_start s /\
  ((heap_end s' = heap_end s /\ pages s' = pages s) \/
   heap_end s' = wrap32 (pages s' * PAGESIZE)).
Proof.
  intros H.
  destruct (malloc_cases _ _ _ _ H)
    as [(_ & -> & _) | (_ & Hhs & Hmx & Hpg & _ & _ & _ & Hpath)].
  - intuition lia.
  - repeat (split; [assumption |]).
    destruct Hpath as [(Hhe & Hp & _) | (Hhe & _)]; [left | right]; auto.
Qed.

Lemma exec_frame c s r s' :
  exec c s = Ok r s' ->
  pages s <= pages s' /\ max_pages s' = max_pages s /\
  ((exists h, c = ResetHeap h) \/ heap_start s' = heap_start s) /\
  ((heap_end s' = heap_end s /\ pages s' = pages s) \/
   heap_end s' = wrap32 (pages s' * PAGESIZE)).
Proof.
  destruct c as [h | size | ptr | count size | ptr new_size]; simpl.
  - unfold reset_heap, get_heap_end, memory_size, bind, modify, gets, ret.
    intros H. inv_ok. sregs.
    split; [lia |]. split; [reflexivity |].
    split; [left; eauto | right; reflexivity].
  - intros H. destruct (malloc_frame _ _ _ _ H) as (H1 & H2 & H3 & H4). auto.
  - unfold bind, ret. destruct (free ptr s) as [| u s1] eqn:Hf; [discriminate |].
    intros H. inv_ok.
    destruct (free_cases _ _ _ _ Hf) as [-> | (_ & _ & ->)]; sregs;
      (split; [lia |]; split; [reflexivity |];
       split; [right; reflexivity | left; split; reflexivity]).
  - unfold calloc, bind, memset, ret.
    destruct (malloc (wrap32 (count * size)) s) as [| q s1] eqn:Hm;
      [discriminate |].
    destruct (malloc_frame _ _ _ _ Hm) as (H1 & H2 & H3 & H4).
    destruct ((wrap32 (count * size) =? 0) ||
              (q + wrap32 (count * size) <=? mem_bytes s1));
      intros H; inv_ok. sregs. auto.
  - unfold realloc.
    destruct (Z.eqb_spec ptr NULL).
    { intros H. destruct (malloc_frame _ _ _ _ H) as (H1 & H2 & H3 & H4). auto. }
    unfold bind at 1. unfold load32.
    destruct (region_for_ptr ptr + 4 <=? mem_bytes s); [| discriminate].
    unfold bind at 1. unfold gets at 1.
    destruct (region_after (region_for_ptr ptr)
                (le32 (mem s) (region_for_ptr ptr)) =? next s).
    + unfold bind, modify. intros H.
      destruct (malloc_frame _ _ _ _ H) as (H1 & H2 & H3 & H4). sregs. auto.
    + unfold bind.
      destruct (malloc new_size s) as [| q s1] eqn:Hm; [discriminate |].
      destruct (malloc_frame _ _ _ _ Hm) as (H1 & H2 & H3 & H4).
      intros H. destruct (copy_block_cases _ _ _ _ _ H) as [_ ->].
      sregs. auto.
Qed.

(** The pointer [malloc] returns does not depend on the bytes in memory. *)
Lemma malloc_returned_mem_indep size hs he n m m' pg mx :
  returned (malloc size (mkState hs he n m pg mx)) =
  returned (malloc size (mkState hs he n m' pg mx)).
Proof.
  cbv beta iota zeta delta
    [malloc bind gets grow_heap memory_grow host_grants get_heap_end
     memory_size malloc_commit store32 modify ret mem_bytes
     heap_start heap_end next mem pages max_pages
     set_heap_start set_heap_end set_next set_mem set_pages].
  repeat match goal with
         | |- context [if ?b then _ else _] => destruct b
         end; reflexivity.
Qed.

(** In a run of genuine allocations every payload starts at least a header
    past anything at or below the cursor the run started from. *)
Lemma malloc_all_apart sizes :
  forall s lo ps s',
    lo <= next s ->
    no_wrap_all (next s) sizes ->
    malloc_all sizes s = Ok ps s' ->
    Forall (fun p => p <> NULL) ps ->
    payloads_apart lo sizes ps (next s').
Proof.
  induction sizes as [| sz rest IH]; intros s lo ps s' Hlo Hw Hrun Hnn.
  - simpl in Hrun. unfold ret in Hrun. inv_ok. exact Hlo.
  - destruct (malloc_all_cons _ _ _ _ _ Hrun) as (p & s1 & ps' & HA & Hrest & ->).
    inversion Hnn as [| ? ? Hp Hnn']; subst.
    destruct Hw as [Hw Hws].
    destruct (malloc_cases _ _ _ _ HA)
      as [(E0 & _) | (Ep & _ & _ & _ & En & _)]; [contradiction |].
    pose proof (region_after_bounds _ _ Hw) as Hbd.
    assert (Ed : p = next s + SIZEOF_REGION).
    { rewrite Ep. apply region_data_small; unfold no_wrap, SIZEOF_REGION in *; zlia. }
    rewrite <- En in Hws. simpl. split; [lia |].
    apply (IH s1); try assumption. lia.
Qed.

(** The growth path of [malloc], spelled out. *)
Lemma malloc_growth_path size s :
  heap_end s < region_after (next s) size ->
  signed32 (wrap32 (region_after (next s) size - heap_start s)) <= MAX_HEAP_SIZE ->
  exists s1,
    (if host_grants (new_page_count size) s
     then s1 = set_pages (pages s + new_page_count size) s
     else s1 = s) /\
    malloc size s =
    malloc_commit size (region_after (next s) size)
      (set_heap_end (wrap32 (pages s1 * PAGESIZE)) s1).
Proof.
  intros Hlt Hcap. unfold malloc, bind, gets.
  destruct (Z.ltb_spec (heap_end s) (region_after (next s) size)); [| lia].
  destruct (Z.ltb_spec MAX_HEAP_SIZE
              (signed32 (wrap32 (region_after (next s) size - heap_start s))));
    [lia |].
  unfold grow_heap, memory_grow, bind, ret.
  pose proof (new_page_count_range size) as Hd.
  destruct (host_grants (new_page_count size) s) eqn:Hg.
  - assert (Hne : (pages s =? MAX_HEAP_SIZE) = false).
    { unfold host_grants in Hg. apply Z.leb_le in Hg. apply Z.eqb_neq.
      unfold WASM_MAX_PAGES, MAX_HEAP_SIZE in *. lia. }
    rewrite Hne. eexists. split; reflexivity.
  - exists s. split; reflexivity.
Qed.

(** ** The code on small inputs *)

Example region_after_rounds_up : region_after 1024 5 = 1036.
Proof. reflexivity. Qed.

Example region_after_keeps_aligned_end : region_after 1024 8 = 1036.
Proof. reflexivity. Qed.

Example region_after_wraps : region_after 1024 0xFFFFFFF0 = 1012.
Proof. reflexivity. Qed.

(** [malloc(0)] that has to grow asks for 65536 pages. *)
Example new_page_count_of_zero : new_page_count 0 = 65536.
Proof. reflexivity. Qed.

Example new_page_count_of_page : new_page_count 65536 = 1.
Proof. reflexivity. Qed.

Example reset_heap_sets_statics :
  reset_heap 1024 full_heap =
  Ok tt (mkState 1024 4259840 1024 (mem full_heap) 65 65).
Proof. reflexivity. Qed.

Example malloc_first_block : malloc 8 one_page_heap = Ok 1028 one_block_heap.
Proof. reflexivity. Qed.

Example malloc_zero_bytes :
  malloc 0 one_block_heap =
  Ok 1040 (mkState 1024 65536 1040 (put32 (mem one_block_heap) 1036 0) 1 1).
Proof. reflexivity. Qed.

Example malloc_over_the_cap : malloc 0x500000 one_page_heap = Ok NULL one_page_heap.
Proof. reflexivity. Qed.

Example malloc_grows : malloc 70000 growable_heap = Ok 1028 grown_heap.
Proof. reflexivity. Qed.

Example free_rewinds_tail :
  free 1040 two_block_heap = Ok tt (set_next 1036 two_block_heap).
Proof. reflexivity. Qed.

Example free_ignores_inner_block :
  free 1028 two_block_heap = Ok tt two_block_heap.
Proof. reflexivity. Qed.

(** Shrinking the tail block in place: the room is measured from the
    block's header, where [malloc] runs, not from the old cursor. *)
Example realloc_shrinks_big_tail :
  realloc 1028 100 big_tail_heap =
  Ok 1028 (mkState 1024 65536 1128 (put32 (mem big_tail_heap) 1024 100) 1 1).
Proof. reflexivity. Qed.

Example realloc_of_big_tail_is_covered :
  covered (Realloc 1028 100) big_tail_heap 1028.
Proof. vm_compute. intuition congruence. Qed.

(** A pointer whose header sits at the cursor (its block was freed):
    [malloc] rewrites the header, and the copy takes the size read after
    that, 16, not the 8 read before. *)
Example realloc_reads_size_again :
  realloc 1028 16 (set_next 1024 one_block_heap) =
  Ok 1028 (mkState 1024 65536 1044
             (copy (put32 (mem one_block_heap) 1024 16) 1028 1028 16) 1 1).
Proof. reflexivity. Qed.

(** ** The claims *)

(** C1, as stated, fails: 65536 * 65536 overflows 32 bits, and [calloc]
    does not return null but the payload address 1028 of a block of zero
    bytes: the cursor moves by the four bytes of the header only. *)
Lemma calloc_overflow_counterexample :
  2 ^ 32 <= 65536 * 65536 /\
  exists s',
    calloc 65536 65536 one_page_heap = Ok 1028 s' /\
    1028 <> NULL /\ next s' = 1028.
Proof.
  split; [vm_compute; discriminate |].
  eexists. split; [lazy; reflexivity |].
  split; [discriminate | reflexivity].
Qed.

(** C1, amended.  [calloc] has no guard on the product.  For every count
    and size, whether the product overflows or not, it returns [p] exactly
    when [malloc] of the product reduced modulo 2^32 returns [p] and the
    zero fill of that many bytes from [p] stays inside the linear memory;
    and when [p] is not null the cursor ends at the end of a block of only
    that reduced number of bytes. *)
Theorem calloc_has_no_overflow_guard count size s p :
  ((exists s', calloc count size s = Ok p s') <->
   (exists s1,
      malloc (wrap32 (count * size)) s = Ok p s1 /\
      (wrap32 (count * size) = 0 \/
       p + wrap32 (count * size) <= mem_bytes s1))) /\
  (forall s',
     calloc count size s = Ok p s' -> p <> NULL ->
     next s' = region_after (next s) (wrap32 (count * size))).
Proof.
  unfold calloc, bind, memset, ret.
  set (n := wrap32 (count * size)).
  split; [split |].
  - intros [s' H].
    destruct (malloc n s) as [| q s1] eqn:Hm; [discriminate |].
    destruct (Z.eqb_spec n 0) as [E0 | E0]; simpl in H.
    + inv_ok. eauto.
    + destruct (Z.leb_spec (q + n) (mem_bytes s1)); inv_ok. eauto.
  - intros (s1 & Hm & Hfill). rewrite Hm.
    destruct (Z.eqb_spec n 0) as [E0 | E0]; simpl.
    + eauto.
    + destruct (Z.leb_spec (p + n) (mem_bytes s1)); [eauto | lia].
  - intros s' H Hp.
    destruct (malloc n s) as [| q s1] eqn:Hm; [discriminate |].
    assert (E : q = p /\ next s' = next s1).
    { destruct ((n =? 0) || (q + n <=? mem_bytes s1)); inv_ok. auto. }
    destruct E as [-> En]. rewrite En.
    destruct (malloc_cases _ _ _ _ Hm) as [(E0 & _) | (_ & _ & _ & _ & E & _)];
      [contradiction | exact E].
Qed.

(** C2.  The specification says that a refused growth request makes
    allocate return null and change nothing.  The code does the opposite:
    whenever the footprint exceeds [heap_end] without exceeding the
    capacity cap and the host refuses the growth, [grow_heap] still reports
    success, so [malloc] writes the header, moves the cursor past
    [heap_end] and returns the payload address, which is not null. *)
Theorem malloc_ignores_refused_growth size s :
  heap_inv s -> 0 <= next s -> next s + SIZEOF_REGION <= mem_bytes s ->
  mem_bytes s < 2 ^ 32 ->
  heap_end s < region_after (next s) size ->
  signed32 (wrap32 (region_after (next s) size - heap_start s)) <= MAX_HEAP_SIZE ->
  host_grants (new_page_count size) s = false ->
  exists p s',
    malloc size s = Ok p s' /\
    p = next s + SIZEOF_REGION /\ p <> NULL /\
    next s' = region_after (next s) size /\ next s < next s' /\
    pages s' = pages s /\
    heap_end s' = wrap32 (pages s * PAGESIZE).
Proof.
  intros [Hlo Hhi] Hn Hb Hm Hlt Hcap Hg.
  unfold malloc, bind, gets.
  destruct (Z.ltb_spec (heap_end s) (region_after (next s) size)); [| lia].
  destruct (Z.ltb_spec MAX_HEAP_SIZE
              (signed32 (wrap32 (region_after (next s) size - heap_start s))));
    [lia |].
  unfold grow_heap, memory_grow, bind, ret. rewrite Hg.
  change (negb (negb (wrap32 (-1) =? MAX_HEAP_SIZE))) with false. cbv iota.
  unfold get_heap_end, memory_size, bind, gets, ret, modify.
  rewrite malloc_commit_eq. simpl.
  unfold SIZEOF_REGION in *.
  destruct (Z.leb_spec (next s + 4)
              (mem_bytes (set_heap_end (wrap32 (pages s * PAGESIZE)) s)))
    as [Hb' | Hb']; [| unfold mem_bytes in *; simpl in Hb'; lia].
  eexists _, _. split; [reflexivity |]. simpl.
  assert (E : region_data (next s) = next s + 4).
  { apply region_data_small; unfold SIZEOF_REGION; lia. }
  rewrite E. unfold NULL. repeat split; lia.
Qed.

Lemma malloc_ignores_refused_growth_witness :
  exists p s',
    malloc 70000 one_page_heap = Ok p s' /\
    p = 1028 /\ p <> NULL /\
    next s' = 71028 /\ 1024 < next s' /\
    pages s' = 1 /\ heap_end s' = 65536.
Proof.
  apply (malloc_ignores_refused_growth 70000 one_page_heap);
    vm_compute; intuition congruence.
Defined.

(** C3, as stated, fails in its second half.  On [full_heap] the request
    of [calloc(4, 4)] exceeds the capacity cap, [malloc(16)] returns null
    and leaves the state alone, and [calloc] returns null too, but only
    after storing zeros from address 0 on: the byte at address 0 was 0xAA
    and is 0 afterwards. *)
Lemma calloc_null_still_writes_counterexample :
  malloc 16 full_heap = Ok NULL full_heap /\
  exists s',
    calloc 4 4 full_heap = Ok NULL s' /\
    mem full_heap 0 = 0xAA /\ mem s' 0 = 0.
Proof.
  split; [reflexivity |].
  eexists. split; [lazy; reflexivity |].
  split; reflexivity.
Qed.

(** When the range to fill is not empty and reaches past the end of the
    linear memory, [calloc] traps. *)
Lemma calloc_fill_traps count size s p s1 :
  malloc (wrap32 (count * size)) s = Ok p s1 ->
  wrap32 (count * size) <> 0 ->
  mem_bytes s1 < p + wrap32 (count * size) ->
  calloc count size s = Trap.
Proof.
  intros Hm Hn Hout. unfold calloc, bind, memset, ret. rewrite Hm.
  destruct (Z.eqb_spec (wrap32 (count * size)) 0); [contradiction |].
  destruct (Z.leb_spec (p + wrap32 (count * size)) (mem_bytes s1));
    [lia | reflexivity].
Qed.

(** C3, amended.  Whatever [malloc] of the (reduced) product returns, a
    payload address or null, [calloc] stores that many zero bytes from the
    returned address on and returns it, provided the range lies inside the
    linear memory, and changes no other byte.  After a successful [malloc]
    whose footprint does not wrap, the zeros fill the payload of the new
    block and nothing else, and the three statics are as [malloc] left
    them.  After a failed one the zeros go to address 0 and up, outside the
    heap; nothing is stated about the statics then. *)
Theorem calloc_zero_fills count size s p s1 :
  malloc (wrap32 (count * size)) s = Ok p s1 ->
  wrap32 (count * size) = 0 \/ p + wrap32 (count * size) <= mem_bytes s1 ->
  exists s',
    calloc count size s = Ok p s' /\
    (forall i, 0 <= i < wrap32 (count * size) -> mem s' (p + i) = 0) /\
    (forall a, a < p \/ p + wrap32 (count * size) <= a -> mem s' a = mem s1 a) /\
    (p <> NULL -> no_wrap (next s) (wrap32 (count * size)) ->
     next s + SIZEOF_REGION <= p /\ p + wrap32 (count * size) <= next s' /\
     heap_start s' = heap_start s1 /\ heap_end s' = heap_end s1 /\
     next s' = next s1).
Proof.
  intros Hm Hfill. unfold calloc, bind, memset, ret. rewrite Hm.
  set (n := wrap32 (count * size)) in *.
  assert (E : (n =? 0) || (p + n <=? mem_bytes s1) = true).
  { destruct Hfill as [E0 | Hle].
    - rewrite E0. reflexivity.
    - apply orb_true_iff. right. apply Z.leb_le. exact Hle. }
  rewrite E. eexists. split; [reflexivity |]. sregs.
  split; [| split].
  - intros i Hi. unfold fill.
    destruct (Z.leb_spec p (p + i)); [| lia].
    destruct (Z.ltb_spec (p + i) (p + n)); [reflexivity | lia].
  - intros a Ha. unfold fill.
    destruct (Z.leb_spec p a); [| reflexivity].
    destruct (Z.ltb_spec a (p + n)); [lia | reflexivity].
  - intros Hp Hw.
    pose proof (region_after_bounds _ _ Hw) as Hbd.
    destruct (malloc_cases _ _ _ _ Hm)
      as [(E0 & _) | (Ep & _ & _ & _ & En & _)]; [contradiction |].
    rewrite region_data_small in Ep
      by (unfold no_wrap, SIZEOF_REGION in *; zlia).
    rewrite En. unfold SIZEOF_REGION in *. repeat split; lia.
Qed.

(** The specification's own example, [calloc(4, 4)], on an empty heap. *)
Lemma calloc_zero_fills_witness :
  exists s',
    calloc 4 4 one_page_heap = Ok 1028 s' /\
    (forall i, 0 <= i < wrap32 (4 * 4) -> mem s' (1028 + i) = 0) /\
    (forall a, a < 1028 \/ 1028 + wrap32 (4 * 4) <= a ->
               mem s' a = put32 zero_mem 1024 16 a) /\
    (1028 <> NULL -> no_wrap 1024 (wrap32 (4 * 4)) ->
     1024 + SIZEOF_REGION <= 1028 /\ 1028 + wrap32 (4 * 4) <= next s' /\
     heap_start s' = 1024 /\ heap_end s' = 65536 /\ next s' = 1044).
Proof.
  apply (calloc_zero_fills 4 4 one_page_heap 1028
           (set_next 1044 (set_mem (put32 zero_mem 1024 16) one_page_heap))).
  - reflexivity.
  - right. vm_compute. discriminate.
Defined.

(** C4.  When [malloc] returns null the whole state, and with it
    [heap_start], [heap_end] and the cursor, is what it was before the
    call, so any later [malloc] behaves exactly as it would have behaved
    before the failed one.  The cursor is assumed not to sit in the last
    word of the address space, where the payload address itself would wrap
    to 0. *)
Theorem malloc_null_is_stateless size s s' :
  0 <= next s -> next s + SIZEOF_REGION < 2 ^ 32 ->
  malloc size s = Ok NULL s' ->
  heap_start s' = heap_start s /\ heap_end s' = heap_end s /\
  next s' = next s /\
  forall size2, malloc size2 s' = malloc size2 s.
Proof.
  intros Hn Hw H.
  destruct (malloc_cases _ _ _ _ H) as [(_ & E & _) | (E & _)].
  - subst s'. auto.
  - rewrite region_data_small in E by assumption.
    unfold NULL, SIZEOF_REGION in *. lia.
Qed.

Lemma malloc_null_is_stateless_witness :
  heap_start one_page_heap = 1024 /\ heap_end one_page_heap = 65536 /\
  next one_page_heap = 1024 /\
  forall size2, malloc size2 one_page_heap = malloc size2 one_page_heap.
Proof.
  apply (malloc_null_is_stateless 0x500000 one_page_heap one_page_heap).
  - vm_compute. discriminate.
  - vm_compute. reflexivity.
  - reflexivity.
Defined.

(** C5, as stated, fails.  [one_page_heap] satisfies the invariant, and
    [malloc(0xFFFFFFF0)] on it returns a non-null pointer and leaves the
    cursor at 1012, below [heap_start]: the end address of the block
    wrapped around the 32-bit address space, and nothing in [malloc] looks
    for that. *)
Lemma heap_inv_broken_by_wrap_counterexample :
  heap_inv one_page_heap /\
  exists s',
    malloc 0xFFFFFFF0 one_page_heap = Ok 1028 s' /\
    next s' = 1012 /\ heap_start s' = 1024 /\ ~ heap_inv s'.
Proof.
  split; [vm_compute; intuition congruence |].
  eexists. split; [lazy; reflexivity |].
  split; [reflexivity |]. split; [reflexivity |].
  intros [H _]. vm_compute in H. apply H. reflexivity.
Qed.

(** The growth path breaks the invariant as well, even when the host grants
    the pages: [grow_heap] asks for the pages that hold [size] bytes, not
    for those that hold the header and the padding too. *)
Lemma heap_inv_broken_by_short_growth :
  heap_inv brim_full_heap /\
  exists s',
    malloc 65536 brim_full_heap = Ok 65540 s' /\
    pages s' = 2 /\ heap_end s' = 131072 /\ next s' = 131076.
Proof.
  split; [vm_compute; intuition congruence |].
  eexists. split; [lazy; reflexivity |].
  repeat split; reflexivity.
Qed.

(** C5, amended.  Every covered call that returns leaves a state that
    satisfies [heap_start <= next <= heap_end] (and whose statics are still
    32-bit addresses).  A reset to an address inside the current memory
    establishes it from any state.  It is kept by a free of null or of a
    block of this heap; by an allocate that returns null or has room for
    its request (the footprint does not wrap around the address space and
    either ends at or below [heap_end] or is reached by the memory after a
    granted growth); by a zero_allocate that returns a block it has room
    for, or null with nothing to fill; by a reallocate of null or of the
    tail block that returns null or has room measured from the cursor
    [malloc] runs from, which for the tail block is its header; and by a
    reallocate of another block of this heap that returns a block it has
    room for.  Not covered are the calls whose growth is refused or falls
    short, and the calls that fill or copy through a null result. *)
Theorem heap_inv_preserved c s r s' :
  exec c s = Ok r s' ->
  covered c s r ->
  heap_inv s' /\ regs_ok s'.
Proof.
  destruct c as [h | size | ptr | count size | ptr new_size]; simpl.
  - (* reset *)
    unfold reset_heap, get_heap_end, memory_size, bind, modify, gets, ret.
    intros H Hc. inv_ok. unfold heap_inv, regs_ok. sregs.
    pose proof (wrap32_range (pages s * PAGESIZE)) as Hu.
    unfold wrap32, u32, PAGESIZE in *. split; [lia |]. split; [lia | zlia].
  - (* malloc *)
    intros H (Hr & Hi & Hc). eapply malloc_keeps_inv; eassumption.
  - (* free *)
    unfold bind, ret. destruct (free ptr s) as [| u s1] eqn:Hf; [discriminate |].
    intros H (Hr & Hi & Hc). inv_ok. eapply free_keeps_inv; eassumption.
  - (* calloc *)
    unfold calloc, bind, memset, ret.
    destruct (malloc (wrap32 (count * size)) s) as [| q s1] eqn:Hm;
      [discriminate |].
    intros H (Hr & Hi & Hc).
    assert (E : q = r /\ heap_start s' = heap_start s1 /\
                heap_end s' = heap_end s1 /\ next s' = next s1).
    { destruct ((wrap32 (count * size) =? 0) ||
                (q + wrap32 (count * size) <=? mem_bytes s1)); inv_ok.
      sregs. auto. }
    destruct E as (-> & E1 & E2 & E3).
    assert (Hc' : r = NULL \/ has_room (wrap32 (count * size)) s)
      by (destruct Hc as [[E0 _] | [_ Hroom]]; auto).
    destruct (malloc_keeps_inv _ _ _ _ Hr Hi Hm Hc') as [Hi1 Hr1].
    unfold heap_inv, regs_ok in *. rewrite E1, E2, E3. auto.
  - (* realloc *)
    intros H (Hr & Hi & Hb & Hc). revert H Hc. unfold realloc, is_tail.
    destruct (Z.eqb_spec ptr NULL) as [E0 | Hp]; intros H Hc.
    { eapply malloc_keeps_inv; eassumption. }
    destruct Hb as [E0 | Hb]; [contradiction |].
    unfold bind at 1 in H. unfold load32 in H.
    destruct (region_for_ptr ptr + 4 <=? mem_bytes s); [| discriminate].
    unfold bind at 1 in H. unfold gets at 1 in H.
    set (region := region_for_ptr ptr) in *.
    revert H Hc.
    destruct (region_after region (le32 (mem s) region) =? next s);
      intros H Hc.
    + (* the tail block: rewind, then malloc *)
      unfold bind, modify in H.
      apply (malloc_keeps_inv new_size (set_next region s) r s').
      * exact Hr.
      * unfold heap_inv, regs_ok in *. sregs. lia.
      * exact H.
      * exact Hc.
    + (* any other block: malloc, then copy *)
      unfold bind in H.
      destruct (malloc new_size s) as [| q s1] eqn:Hm; [discriminate |].
      destruct (copy_block_cases _ _ _ _ _ H) as [-> ->].
      destruct Hc as [_ Hroom].
      destruct (malloc_keeps_inv _ _ _ _ Hr Hi Hm (or_intror Hroom))
        as [Hi1 Hr1].
      unfold heap_inv, regs_ok in *. sregs. auto.
Qed.

Lemma heap_inv_preserved_witness :
  heap_inv grown_heap /\ regs_ok grown_heap.
Proof.
  apply (heap_inv_preserved (Malloc 70000) growable_heap 1028 grown_heap).
  - reflexivity.
  - split; [| split; [| right; right]]; vm_compute; intuition congruence.
Defined.

(** C6.  For a pointer whose block ends at the cursor, [realloc] is a
    [malloc] run from the state whose cursor is rewound to the block's
    header.  When it returns a non-null pointer, that pointer is [ptr]
    itself, the cursor is the end of a block of [new_size] bytes at the same
    header, and no byte outside the four header bytes has changed: nothing
    is copied.  When it returns null, the cursor stays rewound at the
    header: the rewind came first. *)
Theorem realloc_tail_in_place ptr new_size s :
  SIZEOF_REGION <= ptr < 2 ^ 32 ->
  ptr <= mem_bytes s ->
  region_after (ptr - SIZEOF_REGION) (le32 (mem s) (ptr - SIZEOF_REGION)) = next s ->
  realloc ptr new_size s = malloc new_size (set_next (ptr - SIZEOF_REGION) s) /\
  forall p s',
    realloc ptr new_size s = Ok p s' ->
    (p <> NULL ->
     p = ptr /\
     next s' = region_after (ptr - SIZEOF_REGION) new_size /\
     forall a, a < ptr - SIZEOF_REGION \/ ptr <= a -> mem s' a = mem s a) /\
    (p = NULL -> s' = set_next (ptr - SIZEOF_REGION) s).
Proof.
  intros Hp Hb Ht.
  assert (Er : region_for_ptr ptr = ptr - SIZEOF_REGION).
  { unfold region_for_ptr. apply wrap32_small. unfold u32, SIZEOF_REGION in *. zlia. }
  assert (Ed : region_data (ptr - SIZEOF_REGION) = ptr).
  { unfold region_data. replace (ptr - SIZEOF_REGION + SIZEOF_REGION) with ptr by lia.
    apply wrap32_small. unfold u32, SIZEOF_REGION in *. zlia. }
  assert (E : realloc ptr new_size s =
              malloc new_size (set_next (ptr - SIZEOF_REGION) s)).
  { unfold realloc.
    destruct (Z.eqb_spec ptr NULL) as [E0 | _];
      [unfold NULL, SIZEOF_REGION in *; lia |].
    unfold bind at 1. unfold load32. rewrite Er.
    destruct (Z.leb_spec (ptr - SIZEOF_REGION + 4) (mem_bytes s));
      [| unfold SIZEOF_REGION in *; lia].
    unfold bind at 1. unfold gets at 1.
    rewrite Ht, Z.eqb_refl. reflexivity. }
  split; [exact E |].
  intros p s' H. rewrite E in H.
  destruct (malloc_cases _ _ _ _ H)
    as [(E0 & Es & _) | (Ep & _ & _ & _ & En & Em & _)]; simpl in *.
  - split; [intros Hn; contradiction | intros _; exact Es].
  - rewrite Ed in Ep. split.
    + intros _. split; [exact Ep |]. split; [exact En |].
      intros a Ha. rewrite Em. apply put32_outside.
      unfold SIZEOF_REGION in *. lia.
    + intros E0. unfold NULL, SIZEOF_REGION in *. lia.
Qed.

Lemma realloc_tail_in_place_witness :
  realloc 1028 100 one_block_heap = malloc 100 (set_next 1024 one_block_heap) /\
  forall p s',
    realloc 1028 100 one_block_heap = Ok p s' ->
    (p <> NULL ->
     p = 1028 /\
     next s' = region_after 1024 100 /\
     forall a, a < 1024 \/ 1028 <= a -> mem s' a = mem one_block_heap a) /\
    (p = NULL -> s' = set_next 1024 one_block_heap).
Proof.
  apply (realloc_tail_in_place 1028 100 one_block_heap).
  - unfold SIZEOF_REGION. lia.
  - vm_compute. discriminate.
  - vm_compute. reflexivity.
Defined.

(** C7, as stated, fails.  On [one_page_heap], A is a block of 8 bytes
    and B a request of 0xFFFFFFF0 bytes, whose end address wraps around the
    address space to 1024, so that [malloc] returns 1040 for it.  free(B)
    rewinds the cursor to B's header, and allocate(C) with the smaller size
    0x500000 returns null, not B's address: that request is over the
    capacity cap. *)
Lemma tail_free_reclaims_counterexample :
  malloc 8 one_page_heap = Ok 1028 one_block_heap /\
  malloc 0xFFFFFFF0 one_block_heap =
    Ok 1040 (mkState 1024 65536 1024
               (put32 (mem one_block_heap) 1036 0xFFFFFFF0) 1 1) /\
  free 1040 (mkState 1024 65536 1024
               (put32 (mem one_block_heap) 1036 0xFFFFFFF0) 1 1) =
    Ok tt (mkState 1024 65536 1036
             (put32 (mem one_block_heap) 1036 0xFFFFFFF0) 1 1) /\
  0x500000 <= 0xFFFFFFF0 /\
  malloc 0x500000 (mkState 1024 65536 1036
                     (put32 (mem one_block_heap) 1036 0xFFFFFFF0) 1 1) =
    Ok NULL (mkState 1024 65536 1036
               (put32 (mem one_block_heap) 1036 0xFFFFFFF0) 1 1) /\
  NULL <> 1040.
Proof.
  split; [reflexivity |]. split; [reflexivity |]. split; [reflexivity |].
  split; [vm_compute; discriminate |]. split; [reflexivity | discriminate].
Qed.

(** C7, amended.  After allocate(A) and allocate(B), where B is not null
    and its footprint does not wrap around the address space, free(B)
    rewinds the cursor to B's header, and allocate(C) with
    [size(C) <= size(B)] succeeds and returns B's payload address, provided
    B's block ends at or below [heap_end], or B's header is at or above
    [heap_start] and B's block ends less than 2 GiB past [heap_start].  The
    second case takes in the blocks handed out past [heap_end] after a
    refused growth. *)
Theorem tail_free_reclaims a b c s pA s1 pB s2 :
  malloc a s = Ok pA s1 ->
  malloc b s1 = Ok pB s2 ->
  pB <> NULL ->
  no_wrap (next s1) b ->
  next s2 <= heap_end s2 \/
  (heap_start s1 <= next s1 /\ next s2 - heap_start s1 < 2 ^ 31) ->
  0 <= c <= b ->
  exists s3 s4,
    free pB s2 = Ok tt s3 /\
    next s3 = region_for_ptr pB /\
    malloc c s3 = Ok pB s4.
Proof.
  intros _ HB HpB Hw Hin Hc.
  pose proof (region_after_bounds _ _ Hw) as Hbd.
  assert (Hn : u32 (next s1))
    by (unfold no_wrap, u32, SIZEOF_REGION in *; zlia).
  assert (Hub : u32 b) by (unfold no_wrap, u32, SIZEOF_REGION in *; zlia).
  assert (Hwc : no_wrap (next s1) c) by (unfold no_wrap in *; lia).
  pose proof (region_after_bounds _ _ Hwc) as Hbc.
  pose proof (region_after_mono (next s1) c b Hw Hc) as Hmono.
  pose proof (malloc_success_cap _ _ _ _ HB HpB) as HcapB.
  destruct (malloc_cases _ _ _ _ HB)
    as [(E0 & _) | (Ep & Hhs & Hmx & Hpg & En & Em & Hb & Hpath)];
    [contradiction |].
  assert (Er : region_for_ptr pB = next s1)
    by (rewrite Ep; apply region_for_ptr_data; exact Hn).
  assert (Hfree : free pB s2 = Ok tt (set_next (next s1) s2)).
  { rewrite <- Er. apply free_tail; rewrite ?Er.
    - exact HpB.
    - exact Hb.
    - rewrite Em, le32_put32 by exact Hub. symmetry. exact En. }
  set (s3 := set_next (next s1) s2) in *.
  destruct (malloc_returns c s3) as (pC & s4 & HC); [exact Hb |].
  exists s3, s4.
  split; [exact Hfree |]. split; [simpl; symmetry; exact Er |].
  destruct (malloc_cases _ _ _ _ HC)
    as [(_ & _ & Hlt & Hcap) | (EpC & _)].
  - (* allocate(C) cannot be over the cap *)
    exfalso. unfold s3 in Hlt, Hcap. sregs. rewrite Hhs in Hcap.
    destruct Hin as [Hle | [Hlo Hhi]]; [lia |].
    rewrite En in Hhi.
    destruct Hpath as [(Hhe & _ & Hle) | (_ & HltB & _)]; [lia |].
    destruct HcapB as [Hle | HcapB]; [lia |].
    rewrite wrap32_small in Hcap, HcapB
      by (unfold u32, no_wrap, SIZEOF_REGION in *; zlia).
    unfold signed32 in Hcap, HcapB.
    destruct (Z.ltb_spec (region_after (next s1) c - heap_start s1) (2 ^ 31));
      [| lia].
    destruct (Z.ltb_spec (region_after (next s1) b - heap_start s1) (2 ^ 31));
      lia.
  - rewrite HC, EpC, Ep. reflexivity.
Qed.

(** B is handed out past [heap_end] after a refused growth, and its
    address comes back all the same. *)
Lemma tail_free_reclaims_witness :
  exists s3 s4,
    free 1040 (mkState 1024 65536 71040
                 (put32 (mem one_block_heap) 1036 70000) 1 1) = Ok tt s3 /\
    next s3 = region_for_ptr 1040 /\
    malloc 100 s3 = Ok 1040 s4.
Proof.
  apply (tail_free_reclaims 8 70000 100 one_page_heap 1028 one_block_heap 1040).
  - reflexivity.
  - reflexivity.
  - discriminate.
  - vm_compute. intuition congruence.
  - right. vm_compute. intuition congruence.
  - lia.
Defined.

(** C8, as stated, fails: after allocate(A), allocate(B), free(A), the
    address allocate(C) returns is not B's block end.  With three blocks of
    8 bytes on [one_page_heap], B's payload is 1040 and B's block ends at
    1048, while C's payload is 1052. *)
Lemma non_tail_free_returns_block_end_counterexample :
  exists s4,
    malloc 8 one_page_heap = Ok 1028 one_block_heap /\
    malloc 8 one_block_heap = Ok 1040 two_block_heap /\
    free 1028 two_block_heap = Ok tt two_block_heap /\
    malloc 8 two_block_heap = Ok 1052 s4 /\
    region_after (region_for_ptr 1040) 8 = 1048 /\
    1052 <> region_after (region_for_ptr 1040) 8.
Proof.
  exists (set_next 1060 (set_mem (put32 (mem two_block_heap) 1048 8) two_block_heap)).
  split; [reflexivity |]. split; [reflexivity |].
  split; [reflexivity |]. split; [reflexivity |].
  split; [reflexivity | vm_compute; discriminate].
Qed.

(** C8, amended.  After allocate(A) and allocate(B), both genuine blocks,
    free(A) and free(null) leave the state exactly as it is.  A following
    allocate(C) that returns a non-null pointer puts C's header at B's
    block end, so the address it returns is B's block end plus the header
    size, and no byte of A's payload differs from what it was when A was
    allocated. *)
Theorem non_tail_free_keeps_layout a b c s pA s1 pB s2 :
  malloc a s = Ok pA s1 -> pA <> NULL -> no_wrap (next s) a ->
  malloc b s1 = Ok pB s2 -> pB <> NULL -> no_wrap (next s1) b ->
  free pA s2 = Ok tt s2 /\
  free NULL s2 = Ok tt s2 /\
  forall pC s4,
    malloc c s2 = Ok pC s4 -> pC <> NULL ->
    region_for_ptr pC = region_after (region_for_ptr pB) b /\
    pC = region_after (region_for_ptr pB) b + SIZEOF_REGION /\
    forall i, 0 <= i < a -> mem s4 (pA + i) = mem s1 (pA + i).
Proof.
  intros HA HpA HwA HB HpB HwB.
  pose proof (region_after_bounds _ _ HwA) as HbdA.
  pose proof (region_after_bounds _ _ HwB) as HbdB.
  assert (Hn : u32 (next s)) by (unfold no_wrap, u32, SIZEOF_REGION in *; zlia).
  assert (Hua : u32 a) by (unfold no_wrap, u32, SIZEOF_REGION in *; zlia).
  assert (Hn1 : u32 (next s1)) by (unfold no_wrap, u32, SIZEOF_REGION in *; zlia).
  destruct (malloc_cases _ _ _ _ HA)
    as [(E0 & _) | (EpA & _ & _ & HpgA & EnA & EmA & HbA & _)];
    [contradiction |].
  destruct (malloc_cases _ _ _ _ HB)
    as [(E0 & _) | (EpB & _ & _ & HpgB & EnB & EmB & HbB & _)];
    [contradiction |].
  assert (ErA : region_for_ptr pA = next s)
    by (rewrite EpA; apply region_for_ptr_data; exact Hn).
  assert (ErB : region_for_ptr pB = next s1)
    by (rewrite EpB; apply region_for_ptr_data; exact Hn1).
  assert (EdA : pA = next s + SIZEOF_REGION).
  { rewrite EpA. apply region_data_small; unfold no_wrap, SIZEOF_REGION in *; zlia. }
  unfold SIZEOF_REGION in *.
  assert (H0a : 0 <= a) by apply Hua.
  assert (H0b : 0 <= b) by apply HwB.
  split; [| split].
  - apply free_non_tail; rewrite ErA.
    + unfold mem_bytes, PAGESIZE in *. nia.
    + rewrite EmB, le32_outside by lia.
      rewrite EmA, le32_put32 by exact Hua. lia.
  - reflexivity.
  - intros pC s4 HC HpC.
    destruct (malloc_cases _ _ _ _ HC)
      as [(E0 & _) | (EpC & _ & _ & _ & _ & EmC & _)];
      [contradiction |].
    rewrite ErB, <- EnB.
    pose proof (region_after_aligned (next s1) b) as Hal.
    pose proof (region_after_u32 (next s1) b) as Hu2.
    rewrite <- EnB in Hal, Hu2.
    assert (Hsmall : next s2 + 4 < 2 ^ 32).
    { unfold region_data, wrap32, NULL, SIZEOF_REGION, u32 in *. zlia. }
    assert (EdC : pC = next s2 + 4).
    { rewrite EpC. apply region_data_small; unfold u32, SIZEOF_REGION in *; lia. }
    split; [| split].
    + rewrite EpC. apply region_for_ptr_data. exact Hu2.
    + exact EdC.
    + intros i Hi. rewrite EmC, put32_outside by lia.
      rewrite EmB, put32_outside by lia. reflexivity.
Qed.

Lemma non_tail_free_keeps_layout_witness :
  free 1028 two_block_heap = Ok tt two_block_heap /\
  free NULL two_block_heap = Ok tt two_block_heap /\
  forall pC s4,
    malloc 8 two_block_heap = Ok pC s4 -> pC <> NULL ->
    region_for_ptr pC = region_after (region_for_ptr 1040) 8 /\
    pC = region_after (region_for_ptr 1040) 8 + SIZEOF_REGION /\
    forall i, 0 <= i < 8 -> mem s4 (1028 + i) = mem one_block_heap (1028 + i).
Proof.
  apply (non_tail_free_keeps_layout 8 8 8 one_page_heap 1028 one_block_heap 1040).
  - reflexivity.
  - discriminate.
  - vm_compute. intuition congruence.
  - reflexivity.
  - discriminate.
  - vm_compute. intuition congruence.
Defined.

(** C9.  Take any run of allocations that all return non-null, started with
    the cursor at a 4-byte aligned [heap_start].  Every returned payload
    address is 4-byte aligned, the first header sits at [heap_start], the
    computed end of each block is the header of the next one, and the final
    cursor is the computed end of the last block: this is what [laid_out]
    says. *)
Theorem sequential_layout sizes s ps s' :
  u32 (heap_start s) -> heap_start s mod 4 = 0 ->
  next s = heap_start s ->
  malloc_all sizes s = Ok ps s' ->
  Forall (fun p => p <> NULL) ps ->
  laid_out (heap_start s) sizes ps (next s').
Proof.
  intros Hu Hal Hn Hrun Hnn. rewrite <- Hn in *.
  apply malloc_all_layout; assumption.
Qed.

Lemma sequential_layout_witness :
  laid_out 1024 [8; 8] [1028; 1040] 1048.
Proof.
  apply (sequential_layout [8; 8] one_page_heap [1028; 1040] two_block_heap).
  - vm_compute. intuition congruence.
  - reflexivity.
  - reflexivity.
  - reflexivity.
  - repeat constructor; discriminate.
Defined.

(** C10, as stated, fails.  On [one_page_heap] the requests of
    0xFFFFFFF0, 8 and 8 bytes all return non-null: the end address of the
    first block wraps around the address space to 1012, below its own
    header, the second block sits at 1012 and the third at 1024, on top of
    the first header.  Freeing the three pointers in reverse order leaves
    the cursor at 1012, not at [heap_start], which is 1024: the last free
    reads the size of the third block and finds no tail block. *)
Lemma lifo_frees_rewind_counterexample :
  next one_page_heap = heap_start one_page_heap /\
  malloc_all [0xFFFFFFF0; 8; 8] one_page_heap =
    Ok [1028; 1016; 1028]
       (mkState 1024 65536 1036
          (put32 (put32 (put32 zero_mem 1024 0xFFFFFFF0) 1012 8) 1024 8) 1 1) /\
  Forall (fun p => p <> NULL) [1028; 1016; 1028] /\
  free_all (rev [1028; 1016; 1028])
    (mkState 1024 65536 1036
       (put32 (put32 (put32 zero_mem 1024 0xFFFFFFF0) 1012 8) 1024 8) 1 1) =
    Ok tt
       (mkState 1024 65536 1012
          (put32 (put32 (put32 zero_mem 1024 0xFFFFFFF0) 1012 8) 1024 8) 1 1) /\
  1012 <> 1024.
Proof.
  split; [reflexivity |]. split; [reflexivity |].
  split; [repeat constructor; discriminate |].
  split; [reflexivity | discriminate].
Qed.

(** C10, amended.  Take any run of allocations that all return non-null
    and whose footprints do not wrap around the address space, started
    with the cursor at [heap_start].  Freeing the returned pointers in reverse order
    runs without a trap and leaves the cursor at [heap_start]: each free
    finds its block at the tail and rewinds over it. *)
Theorem lifo_frees_rewind_to_heap_start sizes s ps s' :
  next s = heap_start s ->
  no_wrap_all (next s) sizes ->
  malloc_all sizes s = Ok ps s' ->
  Forall (fun p => p <> NULL) ps ->
  exists s'',
    free_all (rev ps) s' = Ok tt s'' /\
    next s'' = heap_start s'' /\
    heap_start s'' = heap_start s.
Proof.
  intros Hn Hw Hrun Hnn.
  exists (set_next (next s) s'). split.
  - apply (free_all_rev_rewinds sizes); assumption.
  - destruct (malloc_all_frame _ _ _ _ Hw Hrun Hnn) as (_ & Hhs & _).
    simpl. split; congruence.
Qed.

Lemma lifo_frees_rewind_to_heap_start_witness :
  exists s'',
    free_all (rev [1028; 1040]) two_block_heap = Ok tt s'' /\
    next s'' = heap_start s'' /\
    heap_start s'' = heap_start one_page_heap.
Proof.
  apply (lifo_frees_rewind_to_heap_start [8; 8] one_page_heap).
  - reflexivity.
  - vm_compute. intuition congruence.
  - reflexivity.
  - repeat constructor; discriminate.
Defined.

(** ** Further properties of the code *)

(** X1.  Header address and payload address are inverse to each other for
    every 32-bit address, also where the step of four bytes wraps around
    the address space. *)
Theorem region_header_payload_round_trip x :
  u32 x ->
  region_for_ptr (region_data x) = x /\ region_data (region_for_ptr x) = x.
Proof.
  intros Hx. split; [apply region_for_ptr_data; exact Hx |].
  unfold region_data, region_for_ptr. rewrite wrap32_add_l.
  replace (x - SIZEOF_REGION + SIZEOF_REGION) with x by lia.
  apply wrap32_small. exact Hx.
Qed.

Lemma region_header_payload_round_trip_witness :
  region_for_ptr (region_data 0xFFFFFFFC) = 0xFFFFFFFC /\
  region_data (region_for_ptr 0xFFFFFFFC) = 0xFFFFFFFC.
Proof.
  apply (region_header_payload_round_trip 0xFFFFFFFC).
  vm_compute. intuition congruence.
Defined.

(** X2.  [region_after] always yields a 4-byte aligned 32-bit address,
    whatever its arguments; and when the footprint does not wrap it is the
    least multiple of 4 at or past the end of the payload: fewer than four
    bytes of padding. *)
Theorem region_after_least_aligned_end c len :
  region_after c len mod 4 = 0 /\ u32 (region_after c len) /\
  (no_wrap c len ->
   c + SIZEOF_REGION + len <= region_after c len < c + SIZEOF_REGION + len + 4).
Proof.
  split; [apply region_after_aligned |].
  split; [apply region_after_u32 |].
  intros Hw. pose proof (region_after_bounds _ _ Hw). lia.
Qed.

(** X3.  The number of pages [grow_heap] asks for: for a size of at least
    one byte it is the least number of pages that hold [size] bytes; for
    size 0 the subtraction wraps and it is 65536 pages, the whole address
    space. *)
Theorem new_page_count_covers_size size :
  u32 size ->
  (size = 0 -> new_page_count size = 65536) /\
  (1 <= size ->
   size <= new_page_count size * PAGESIZE < size + PAGESIZE).
Proof.
  intros Hu. split.
  - intros ->. reflexivity.
  - intros H1. unfold new_page_count.
    rewrite (wrap32_small (size - 1)) by (unfold u32 in *; lia).
    unfold u32, PAGESIZE in *.
    rewrite wrap32_small by (unfold u32; zlia).
    zlia.
Qed.

Lemma new_page_count_covers_size_witness :
  (70000 = 0 -> new_page_count 70000 = 65536) /\
  (1 <= 70000 ->
   70000 <= new_page_count 70000 * PAGESIZE < 70000 + PAGESIZE).
Proof.
  apply (new_page_count_covers_size 70000).
  vm_compute. intuition congruence.
Defined.

(** X4.  [grow_heap] never reports a failure and never traps.  If the host
    grants the pages the memory has grown by the pages asked for; if the
    host refuses the state is what it was; either way the result is
    true. *)
Theorem grow_heap_never_reports_failure size s :
  exists s',
    grow_heap size s = Ok true s' /\
    (if host_grants (new_page_count size) s
     then s' = set_pages (pages s + new_page_count size) s
     else s' = s).
Proof.
  unfold grow_heap, memory_grow, bind, ret.
  pose proof (new_page_count_range size) as Hd.
  destruct (host_grants (new_page_count size) s) eqn:Hg.
  - eexists. split; [| reflexivity].
    unfold host_grants in Hg. apply Z.leb_le in Hg.
    unfold WASM_MAX_PAGES, MAX_HEAP_SIZE in *.
    destruct (Z.eqb_spec (pages s) (4 * 1024 * 1024)); [lia | reflexivity].
  - exists s. split; reflexivity.
Qed.

(** X5.  A request that fits below [heap_end] always succeeds without
    touching the host: [malloc] returns the address one header past the
    cursor, which is not null; the payload lies between that address and
    the new cursor, which is still at or below [heap_end]; and
    [heap_start], [heap_end] and the memory size are what they were. *)
Theorem malloc_fits_succeeds size s :
  fits size s -> heap_end s <= mem_bytes s ->
  exists s',
    malloc size s = Ok (next s + SIZEOF_REGION) s' /\
    next s + SIZEOF_REGION <> NULL /\
    next s + SIZEOF_REGION + size <= next s' /\ next s' <= heap_end s' /\
    heap_start s' = heap_start s /\ heap_end s' = heap_end s /\
    pages s' = pages s.
Proof.
  intros [Hw Hle] Hmem.
  pose proof (region_after_bounds _ _ Hw) as Hbd.
  assert (Ed : region_data (next s) = next s + SIZEOF_REGION).
  { apply region_data_small; unfold no_wrap, SIZEOF_REGION in *; zlia. }
  eexists. split.
  - rewrite <- Ed. apply malloc_bump; [exact Hle |].
    unfold no_wrap, SIZEOF_REGION in *. lia.
  - sregs. unfold no_wrap, NULL, SIZEOF_REGION in *.
    repeat split; try reflexivity; lia.
Qed.

Lemma malloc_fits_succeeds_witness :
  exists s',
    malloc 8 one_block_heap = Ok (next one_block_heap + SIZEOF_REGION) s' /\
    next one_block_heap + SIZEOF_REGION <> NULL /\
    next one_block_heap + SIZEOF_REGION + 8 <= next s' /\
    next s' <= heap_end s' /\
    heap_start s' = heap_start one_block_heap /\
    heap_end s' = heap_end one_block_heap /\
    pages s' = pages one_block_heap.
Proof.
  apply (malloc_fits_succeeds 8 one_block_heap);
    vm_compute; intuition congruence.
Defined.

(** X6.  On the growth path, when the host grants the pages: the memory
    grows by exactly the pages [grow_heap] asks for, [heap_end] is read
    again from the new size, and the block is handed out at the cursor as
    usual. *)
Theorem malloc_grows_by_request size s :
  0 <= next s -> next s + SIZEOF_REGION < 2 ^ 32 ->
  heap_end s < region_after (next s) size ->
  signed32 (wrap32 (region_after (next s) size - heap_start s)) <= MAX_HEAP_SIZE ->
  host_grants (new_page_count size) s = true ->
  next s + SIZEOF_REGION <= (pages s + new_page_count size) * PAGESIZE ->
  exists s',
    malloc size s = Ok (next s + SIZEOF_REGION) s' /\
    pages s' = pages s + new_page_count size /\
    heap_end s' = wrap32 (pages s' * PAGESIZE) /\
    next s' = region_after (next s) size /\
    heap_start s' = heap_start s.
Proof.
  intros Hn Hw Hlt Hcap Hg Hb.
  assert (Ed : region_data (next s) = next s + SIZEOF_REGION)
    by (apply region_data_small; assumption).
  unfold malloc, bind, gets.
  destruct (Z.ltb_spec (heap_end s) (region_after (next s) size)); [| lia].
  destruct (Z.ltb_spec MAX_HEAP_SIZE
              (signed32 (wrap32 (region_after (next s) size - heap_start s))));
    [lia |].
  unfold grow_heap, memory_grow, bind, ret. rewrite Hg.
  pose proof (new_page_count_range size) as Hd.
  assert (Hne : (pages s =? MAX_HEAP_SIZE) = false).
  { unfold host_grants in Hg. apply Z.leb_le in Hg. apply Z.eqb_neq.
    unfold WASM_MAX_PAGES, MAX_HEAP_SIZE in *. lia. }
  rewrite Hne. cbv beta iota. unfold negb.
  unfold get_heap_end, memory_size, bind, gets, ret, modify.
  rewrite malloc_commit_eq. sregs. unfold mem_bytes. sregs.
  unfold SIZEOF_REGION in *.
  destruct (Z.leb_spec (next s + 4) ((pages s + new_page_count size) * PAGESIZE));
    [| lia].
  eexists. split; [rewrite Ed; reflexivity |]. sregs.
  repeat split; reflexivity.
Qed.

Lemma malloc_grows_by_request_witness :
  exists s',
    malloc 70000 growable_heap = Ok (next growable_heap + SIZEOF_REGION) s' /\
    pages s' = pages growable_heap + new_page_count 70000 /\
    heap_end s' = wrap32 (pages s' * PAGESIZE) /\
    next s' = region_after (next growable_heap) 70000 /\
    heap_start s' = heap_start growable_heap.
Proof.
  apply (malloc_grows_by_request 70000 growable_heap);
    vm_compute; intuition congruence.
Defined.

(** X7.  Exactly when [malloc] returns null.  With the cursor a proper
    address, [malloc] returns null if and only if the end of the new block
    lies past [heap_end] and its distance from [heap_start], read as a
    signed 32-bit number, is more than [MAX_HEAP_SIZE]. *)
Theorem malloc_null_iff_over_cap size s :
  0 <= next s -> next s + SIZEOF_REGION < 2 ^ 32 ->
  ((exists s', malloc size s = Ok NULL s') <->
   heap_end s < region_after (next s) size /\
   MAX_HEAP_SIZE <
     signed32 (wrap32 (region_after (next s) size - heap_start s))).
Proof.
  intros Hn Hw. split.
  - intros [s' H].
    destruct (malloc_cases _ _ _ _ H) as [(_ & _ & H1 & H2) | (E & _)].
    + split; assumption.
    + rewrite region_data_small in E by assumption.
      unfold NULL, SIZEOF_REGION in *. lia.
  - intros [H1 H2]. exists s. unfold malloc, bind, gets.
    destruct (Z.ltb_spec (heap_end s) (region_after (next s) size)); [| lia].
    destruct (Z.ltb_spec MAX_HEAP_SIZE
                (signed32 (wrap32 (region_after (next s) size - heap_start s))));
      [reflexivity | lia].
Qed.

Lemma malloc_null_iff_over_cap_witness :
  (exists s', malloc 0x500000 one_page_heap = Ok NULL s') <->
  heap_end one_page_heap < region_after (next one_page_heap) 0x500000 /\
  MAX_HEAP_SIZE <
    signed32 (wrap32 (region_after (next one_page_heap) 0x500000
                      - heap_start one_page_heap)).
Proof.
  apply (malloc_null_iff_over_cap 0x500000 one_page_heap);
    vm_compute; intuition congruence.
Defined.

(** X8.  The capacity check compares a signed difference, so a block that
    ends 2 GiB or more past [heap_start] is never refused: whatever the
    size of the memory and whatever the host answers, [malloc] returns the
    address one header past the cursor and moves the cursor to the end of
    that block. *)
Theorem malloc_two_gib_bypasses_cap size s :
  0 <= heap_start s <= next s ->
  no_wrap (next s) size ->
  2 ^ 31 <= region_after (next s) size - heap_start s ->
  next s + SIZEOF_REGION <= mem_bytes s ->
  exists s',
    malloc size s = Ok (next s + SIZEOF_REGION) s' /\
    next s + SIZEOF_REGION <> NULL /\
    next s' = region_after (next s) size.
Proof.
  intros Hhs Hw Hbig Hb.
  pose proof (region_after_u32 (next s) size) as Hu.
  assert (Ed : region_data (next s) = next s + SIZEOF_REGION).
  { apply region_data_small; unfold no_wrap, SIZEOF_REGION in *; zlia. }
  assert (Hnn : next s + SIZEOF_REGION <> NULL)
    by (unfold NULL, SIZEOF_REGION; lia).
  assert (Hcap : signed32 (wrap32 (region_after (next s) size - heap_start s))
                 <= MAX_HEAP_SIZE).
  { rewrite wrap32_small by (unfold u32 in *; zlia).
    unfold signed32, MAX_HEAP_SIZE.
    destruct (Z.ltb_spec (region_after (next s) size - heap_start s) (2 ^ 31));
      unfold u32 in *; zlia. }
  unfold malloc, bind, gets.
  destruct (Z.ltb_spec (heap_end s) (region_after (next s) size)).
  - destruct (Z.ltb_spec MAX_HEAP_SIZE
                (signed32 (wrap32 (region_after (next s) size - heap_start s))));
      [lia |].
    destruct (grow_heap_cases size s)
      as (s1 & Hg & Hhs1 & Hhe1 & Hn1 & Hm1 & Hmx1 & Hp1 & _).
    rewrite Hg. cbv beta iota. unfold negb.
    unfold get_heap_end, memory_size, bind, gets, ret, modify.
    rewrite malloc_commit_eq. sregs. unfold mem_bytes in *. sregs.
    rewrite Hn1. unfold SIZEOF_REGION, PAGESIZE in *.
    destruct (Z.leb_spec (next s + 4) (pages s1 * 65536)); [| nia].
    eexists. split; [rewrite Ed; reflexivity |]. sregs. auto.
  - rewrite malloc_commit_eq. unfold SIZEOF_REGION in *.
    destruct (Z.leb_spec (next s + 4) (mem_bytes s)); [| lia].
    eexists. split; [rewrite Ed; reflexivity |]. sregs. auto.
Qed.

Lemma malloc_two_gib_bypasses_cap_witness :
  exists s',
    malloc 0x80000000 one_page_heap = Ok (next one_page_heap + SIZEOF_REGION) s' /\
    next one_page_heap + SIZEOF_REGION <> NULL /\
    next s' = region_after (next one_page_heap) 0x80000000.
Proof.
  apply (malloc_two_gib_bypasses_cap 0x80000000 one_page_heap);
    vm_compute; intuition congruence.
Defined.

(** X9.  [malloc] writes nothing but the four header bytes at the old
    cursor, and after a non-null result the header just before the
    returned address holds the requested size. *)
Theorem malloc_touches_only_header size s p s' :
  malloc size s = Ok p s' ->
  u32 (next s) -> u32 size ->
  (forall a, a < next s \/ next s + SIZEOF_REGION <= a -> mem s' a = mem s a) /\
  (p <> NULL -> le32 (mem s') (region_for_ptr p) = size).
Proof.
  intros H Hn Hsz.
  destruct (malloc_cases _ _ _ _ H)
    as [(E0 & -> & _) | (Ep & _ & _ & _ & _ & Em & _)].
  - split; [reflexivity | contradiction].
  - split.
    + intros a Ha. rewrite Em. apply put32_outside.
      unfold SIZEOF_REGION in *. lia.
    + intros _. rewrite Ep, region_for_ptr_data by exact Hn.
      rewrite Em. apply le32_put32. exact Hsz.
Qed.

Lemma malloc_touches_only_header_witness :
  (forall a, a < next one_block_heap \/ next one_block_heap + SIZEOF_REGION <= a ->
             mem two_block_heap a = mem one_block_heap a) /\
  (1040 <> NULL -> le32 (mem two_block_heap) (region_for_ptr 1040) = 8).
Proof.
  apply (malloc_touches_only_header 8 one_block_heap 1040 two_block_heap).
  - reflexivity.
  - vm_compute. intuition congruence.
  - vm_compute. intuition congruence.
Defined.

(** X10.  Freeing the same pointer twice in a row does what freeing it once
    does, for every pointer whose block does not wrap around the address
    space: after the first free the block no longer ends at the cursor, so
    the second free changes nothing. *)
Theorem free_twice_is_free_once ptr s :
  no_wrap (region_for_ptr ptr) (le32 (mem s) (region_for_ptr ptr)) ->
  (free ptr ;;; free ptr) s = free ptr s.
Proof.
  intros Hw. pose proof (region_after_bounds _ _ Hw) as Hbd.
  unfold bind at 1.
  destruct (free ptr s) as [| u s1] eqn:Hf; [reflexivity |].
  destruct u.
  destruct (free_cases _ _ _ _ Hf) as [-> | (Hp & Ht & ->)]; [exact Hf |].
  assert (Hb : region_for_ptr ptr + 4 <= mem_bytes s).
  { unfold free in Hf. destruct (Z.eqb_spec ptr NULL); [contradiction |].
    unfold bind, load32 in Hf.
    destruct (Z.leb_spec (region_for_ptr ptr + 4) (mem_bytes s));
      [assumption | discriminate]. }
  apply free_non_tail.
  - exact Hb.
  - sregs. unfold no_wrap, SIZEOF_REGION in *. lia.
Qed.

Lemma free_twice_is_free_once_witness :
  (free 1040 ;;; free 1040) two_block_heap = free 1040 two_block_heap.
Proof.
  apply (free_twice_is_free_once 1040 two_block_heap).
  vm_compute. intuition congruence.
Defined.

(** X11.  After a block has been allocated and freed at once, the next
    [malloc], whatever its size, does not trap and returns either that
    block's address again or null: it never hands out a different
    address. *)
Theorem freed_tail_is_reused_or_null b c s1 pB s2 :
  malloc b s1 = Ok pB s2 -> pB <> NULL ->
  u32 (next s1) -> u32 b ->
  exists s3,
    free pB s2 = Ok tt s3 /\ next s3 = next s1 /\
    exists pC s4, malloc c s3 = Ok pC s4 /\ (pC = pB \/ pC = NULL).
Proof.
  intros HB HpB Hn Hub.
  destruct (malloc_cases _ _ _ _ HB)
    as [(E0 & _) | (Ep & _ & _ & _ & En & Em & Hb & _)]; [contradiction |].
  assert (Er : region_for_ptr pB = next s1)
    by (rewrite Ep; apply region_for_ptr_data; exact Hn).
  exists (set_next (next s1) s2). split; [| split; [reflexivity |]].
  - rewrite <- Er. apply free_tail; rewrite ?Er.
    + exact HpB.
    + exact Hb.
    + rewrite Em, le32_put32 by exact Hub. symmetry. exact En.
  - destruct (malloc_returns c (set_next (next s1) s2)) as (pC & s4 & HC).
    { exact Hb. }
    exists pC, s4. split; [exact HC |].
    destruct (malloc_cases _ _ _ _ HC) as [(E0 & _) | (EpC & _)].
    + right. exact E0.
    + left. sregs. congruence.
Qed.

Lemma freed_tail_is_reused_or_null_witness :
  exists s3,
    free 1040 two_block_heap = Ok tt s3 /\ next s3 = next one_block_heap /\
    exists pC s4, malloc 0x500000 s3 = Ok pC s4 /\ (pC = 1040 \/ pC = NULL).
Proof.
  apply (freed_tail_is_reused_or_null 8 0x500000 one_block_heap 1040 two_block_heap).
  - reflexivity.
  - discriminate.
  - vm_compute. intuition congruence.
  - vm_compute. intuition congruence.
Defined.

(** X12.  A block that is freed while it is the tail and allocated again
    through [calloc] comes back zeroed, whatever was written to its payload
    in between: [calloc] with a product of at most the old size returns the
    old address, and every byte of the new payload is 0.  The bytes written
    in between are any memory [m'] that leaves the block's header alone. *)
Theorem calloc_rezeroes_reused_block b count size s1 pB s2 m' :
  malloc b s1 = Ok pB s2 -> pB <> NULL ->
  no_wrap (next s1) b ->
  next s2 <= heap_end s2 -> heap_end s2 <= mem_bytes s2 ->
  (forall a, next s1 <= a < next s1 + SIZEOF_REGION -> m' a = mem s2 a) ->
  wrap32 (count * size) <= b ->
  exists s3 s4,
    free pB (set_mem m' s2) = Ok tt s3 /\
    calloc count size s3 = Ok pB s4 /\
    forall i, 0 <= i < wrap32 (count * size) -> mem s4 (pB + i) = 0.
Proof.
  intros HB HpB Hw Hhe Hmem Hm' Hn.
  pose proof (wrap32_range (count * size)) as Hnr.
  set (n := wrap32 (count * size)) in *.
  pose proof (region_after_bounds _ _ Hw) as Hbd.
  assert (Hu : u32 (next s1)) by (unfold no_wrap, u32, SIZEOF_REGION in *; zlia).
  assert (Hub : u32 b) by (unfold no_wrap, u32, SIZEOF_REGION in *; zlia).
  destruct (malloc_cases _ _ _ _ HB)
    as [(E0 & _) | (Ep & _ & _ & _ & En & Em & Hb & _)]; [contradiction |].
  assert (Er : region_for_ptr pB = next s1)
    by (rewrite Ep; apply region_for_ptr_data; exact Hu).
  assert (Ed : pB = next s1 + SIZEOF_REGION).
  { rewrite Ep. apply region_data_small; unfold no_wrap, SIZEOF_REGION in *; zlia. }
  set (s3 := set_next (next s1) (set_mem m' s2)).
  assert (Hfree : free pB (set_mem m' s2) = Ok tt s3).
  { unfold s3. rewrite <- Er. apply free_tail; rewrite ?Er; sregs.
    - exact HpB.
    - exact Hb.
    - rewrite (le32_ext (mem s2) m') by (unfold SIZEOF_REGION in Hm'; exact Hm').
      rewrite Em, le32_put32 by exact Hub. symmetry. exact En. }
  assert (Hmono : region_after (next s1) n <= region_after (next s1) b).
  { apply region_after_mono; [exact Hw | unfold u32 in Hnr; lia]. }
  assert (HC : malloc n s3 =
               Ok pB (set_next (region_after (next s3) n)
                        (set_mem (put32 (mem s3) (next s3) n) s3))).
  { rewrite Ep. change (next s1) with (next s3) at 1.
    apply malloc_bump; unfold s3; sregs; [lia | exact Hb]. }
  exists s3. eexists. split; [exact Hfree |].
  unfold calloc, bind, memset, ret. fold n. rewrite HC.
  assert (Hin : (n =? 0) || (pB + n <=? mem_bytes s2) = true).
  { apply orb_true_iff. right. apply Z.leb_le.
    assert (Hwn : no_wrap (next s1) n)
      by (unfold no_wrap, u32 in *; lia).
    pose proof (region_after_bounds _ _ Hwn).
    unfold SIZEOF_REGION in *. lia. }
  cbv beta iota. unfold s3, mem_bytes in *. sregs. rewrite Hin.
  split; [reflexivity |].
  intros i Hi. sregs. unfold fill.
  destruct (Z.leb_spec pB (pB + i)); [| lia].
  destruct (Z.ltb_spec (pB + i) (pB + n)); [reflexivity | lia].
Qed.

Lemma calloc_rezeroes_reused_block_witness :
  exists s3 s4,
    free 1040 (set_mem (fun a => if a <? 1040 then mem two_block_heap a else 0xFF)
                 two_block_heap) = Ok tt s3 /\
    calloc 2 4 s3 = Ok 1040 s4 /\
    forall i, 0 <= i < wrap32 (2 * 4) -> mem s4 (1040 + i) = 0.
Proof.
  apply (calloc_rezeroes_reused_block 8 2 4 one_block_heap 1040 two_block_heap).
  - reflexivity.
  - discriminate.
  - vm_compute. intuition congruence.
  - vm_compute. discriminate.
  - vm_compute. discriminate.
  - intros a Ha. simpl in Ha.
    destruct (Z.ltb_spec a 1040); [reflexivity | lia].
  - vm_compute. discriminate.
Defined.

(** X13.  [realloc] of a block that is not the tail and lies below the
    cursor copies as many bytes as that block's header says, whatever the
    new size is, to the address [malloc] returned for the new size, be it a
    payload address or null.  The header is read again after [malloc],
    which has left it alone because it lies below the cursor.  Both ranges
    are assumed to lie inside the memory.  After a non-null result the
    three statics are as [malloc] left them. *)
Theorem realloc_non_tail_copies_old_size ptr new_size s q s1 :
  SIZEOF_REGION <= ptr < 2 ^ 32 ->
  ptr <= mem_bytes s ->
  region_after (ptr - SIZEOF_REGION) (le32 (mem s) (ptr - SIZEOF_REGION))
    <> next s ->
  ptr <= next s ->
  ptr + le32 (mem s) (ptr - SIZEOF_REGION) <= next s ->
  malloc new_size s = Ok q s1 ->
  q + le32 (mem s) (ptr - SIZEOF_REGION) <= mem_bytes s1 ->
  ptr + le32 (mem s) (ptr - SIZEOF_REGION) <= mem_bytes s1 ->
  exists s',
    realloc ptr new_size s = Ok q s' /\
    (forall i, 0 <= i < le32 (mem s) (ptr - SIZEOF_REGION) ->
               mem s' (q + i) = mem s (ptr + i)) /\
    (q <> NULL ->
     heap_start s' = heap_start s1 /\ heap_end s' = heap_end s1 /\
     next s' = next s1).
Proof.
  intros Hp Hb Ht Hbelow Hold Hm Hq Hsrc.
  assert (Er : region_for_ptr ptr = ptr - SIZEOF_REGION).
  { unfold region_for_ptr. apply wrap32_small. unfold u32, SIZEOF_REGION in *. zlia. }
  assert (Ed : region_data (ptr - SIZEOF_REGION) = ptr).
  { unfold region_data. replace (ptr - SIZEOF_REGION + SIZEOF_REGION) with ptr by lia.
    apply wrap32_small. unfold u32, SIZEOF_REGION in *. zlia. }
  set (sz := le32 (mem s) (ptr - SIZEOF_REGION)) in *.
  (* what malloc left: the old header and payload, and a memory no smaller *)
  assert (Hkeep : (forall a, a < next s -> mem s1 a = mem s a) /\
                  mem_bytes s <= mem_bytes s1).
  { destruct (malloc_cases _ _ _ _ Hm)
      as [(_ & -> & _) | (_ & _ & _ & Hpg & _ & Em & _)].
    - split; [reflexivity | lia].
    - split.
      + intros a Ha. rewrite Em. apply put32_outside. lia.
      + unfold mem_bytes, PAGESIZE. lia. }
  destruct Hkeep as [Hkeep Hgrow].
  assert (Hsz : le32 (mem s1) (ptr - SIZEOF_REGION) = sz).
  { apply le32_ext. intros x Hx. apply Hkeep. unfold SIZEOF_REGION in *. lia. }
  unfold realloc.
  destruct (Z.eqb_spec ptr NULL) as [E0 | _];
    [unfold NULL, SIZEOF_REGION in *; lia |].
  unfold bind at 1. unfold load32. rewrite Er.
  destruct (Z.leb_spec (ptr - SIZEOF_REGION + 4) (mem_bytes s));
    [| unfold SIZEOF_REGION in *; lia].
  unfold bind at 1. unfold gets at 1. fold sz.
  destruct (Z.eqb_spec (region_after (ptr - SIZEOF_REGION) sz) (next s));
    [contradiction |].
  unfold bind at 1. rewrite Hm.
  unfold copy_block, bind, load32, memcpy, ret.
  destruct (Z.leb_spec (ptr - SIZEOF_REGION + 4) (mem_bytes s1));
    [| unfold SIZEOF_REGION in *; lia].
  rewrite Hsz, Ed.
  assert (Hin : (sz =? 0) || ((q + sz <=? mem_bytes s1) && (ptr + sz <=? mem_bytes s1))
                = true).
  { apply orb_true_iff. right. apply andb_true_iff. split; apply Z.leb_le; assumption. }
  rewrite Hin. eexists. split; [reflexivity |]. sregs.
  split; [| auto].
  intros i Hi. unfold copy.
  destruct (Z.leb_spec q (q + i)); [| lia].
  destruct (Z.ltb_spec (q + i) (q + sz)); [| lia]. simpl.
  replace (ptr + (q + i - q)) with (ptr + i) by lia.
  apply Hkeep. lia.
Qed.

(** Shrinking the first of two 8-byte blocks to 4 bytes: 8 bytes are
    copied to the new block at 1052, whose payload ends at 1056. *)
Lemma realloc_non_tail_copies_old_size_witness :
  exists s',
    realloc 1028 4 two_block_heap = Ok 1052 s' /\
    (forall i, 0 <= i < le32 (mem two_block_heap) (1028 - SIZEOF_REGION) ->
               mem s' (1052 + i) = mem two_block_heap (1028 + i)) /\
    (1052 <> NULL ->
     heap_start s' = 1024 /\ heap_end s' = 65536 /\ next s' = 1056).
Proof.
  apply (realloc_non_tail_copies_old_size 1028 4 two_block_heap 1052
           (mkState 1024 65536 1056 (put32 (mem two_block_heap) 1048 4) 1 1)).
  - unfold SIZEOF_REGION. lia.
  - vm_compute. discriminate.
  - vm_compute. discriminate.
  - vm_compute. discriminate.
  - vm_compute. discriminate.
  - reflexivity.
  - vm_compute. discriminate.
  - vm_compute. discriminate.
Defined.

(** X14.  A granted growth can still fall short.  When the heap is full to
    the last byte of the memory and the request is a whole number of
    pages, [grow_heap] asks for just those pages, the host grants them, and
    [malloc] hands out a block whose end lies one header past the new end
    of the memory. *)
Theorem malloc_granted_growth_falls_short k s :
  1 <= k -> 0 <= pages s -> pages s + k < WASM_MAX_PAGES ->
  0 <= heap_start s <= next s ->
  next s = mem_bytes s -> heap_end s = mem_bytes s ->
  next s + SIZEOF_REGION + k * PAGESIZE - heap_start s <= MAX_HEAP_SIZE ->
  host_grants k s = true ->
  exists s',
    malloc (k * PAGESIZE) s = Ok (next s + SIZEOF_REGION) s' /\
    pages s' = pages s + k /\
    heap_end s' = mem_bytes s' /\
    next s' = mem_bytes s' + SIZEOF_REGION.
Proof.
  intros Hk Hpg Hmax Hhs Hn Hhe Hcap Hg.
  unfold mem_bytes, WASM_MAX_PAGES, SIZEOF_REGION, PAGESIZE in *.
  assert (Hw : no_wrap (next s) (k * 65536))
    by (unfold no_wrap, SIZEOF_REGION; zlia).
  assert (Ere : region_after (next s) (k * 65536) = next s + k * 65536 + 4).
  { rewrite (region_after_no_wrap _ _ Hw). zlia. }
  assert (Enp : new_page_count (k * 65536) = k).
  { unfold new_page_count, PAGESIZE.
    rewrite (wrap32_small (k * 65536 - 1)) by (unfold u32; zlia).
    rewrite wrap32_small by (unfold u32; zlia). zlia. }
  assert (Ed : region_data (next s) = next s + 4).
  { apply region_data_small; unfold SIZEOF_REGION; zlia. }
  destruct (malloc_growth_path (k * 65536) s) as (s1 & Hs1 & Hm).
  - rewrite Ere. lia.
  - rewrite Ere, wrap32_small by (unfold u32; zlia).
    unfold signed32, MAX_HEAP_SIZE in *.
    destruct (Z.ltb_spec (next s + k * 65536 + 4 - heap_start s) (2 ^ 31)); zlia.
  - rewrite Enp, Hg in Hs1. subst s1. rewrite Hm, malloc_commit_eq.
    unfold mem_bytes, PAGESIZE. sregs.
    destruct (Z.leb_spec (next s + 4) ((pages s + k) * 65536)); [| lia].
    eexists. split; [rewrite Ed; reflexivity |]. sregs.
    rewrite Ere, wrap32_small by (unfold u32; zlia).
    repeat split; lia.
Qed.

Lemma malloc_granted_growth_falls_short_witness :
  exists s',
    malloc (1 * PAGESIZE) brim_full_heap
      = Ok (next brim_full_heap + SIZEOF_REGION) s' /\
    pages s' = pages brim_full_heap + 1 /\
    heap_end s' = mem_bytes s' /\
    next s' = mem_bytes s' + SIZEOF_REGION.
Proof.
  apply (malloc_granted_growth_falls_short 1 brim_full_heap);
    vm_compute; intuition congruence.
Defined.

(** X15.  No call ever shrinks the linear memory or changes the host's
    ceiling; and no call but a reset moves [heap_start], as long as the
    call stores nothing outside the heap (the cursor is at or above
    [heap_start], and no fill or copy runs through a null result). *)
Theorem exec_never_shrinks_memory c s r s' :
  exec c s = Ok r s' ->
  pages s <= pages s' /\ max_pages s' = max_pages s /\
  ((forall h, c <> ResetHeap h) -> stores_in_heap c s r ->
   heap_start s' = heap_start s).
Proof.
  intros H. destruct (exec_frame _ _ _ _ H) as (H1 & H2 & H3 & _).
  repeat split; try assumption.
  intros Hc _. destruct H3 as [[h ->] | H3]; [| exact H3].
  exfalso. apply (Hc h). reflexivity.
Qed.

Lemma exec_never_shrinks_memory_witness :
  pages growable_heap <= pages grown_heap /\
  max_pages grown_heap = max_pages growable_heap /\
  ((forall h, Malloc 70000 <> ResetHeap h) ->
   stores_in_heap (Malloc 70000) growable_heap 1028 ->
   heap_start grown_heap = heap_start growable_heap).
Proof.
  apply (exec_never_shrinks_memory (Malloc 70000) growable_heap 1028 grown_heap).
  reflexivity.
Defined.

(** X16.  Once [heap_end] is the size of the memory in bytes (cut to 32
    bits), as a reset makes it, every call that stores nothing outside the
    heap keeps it so: a state reached by a reset, or by such a call from a
    state with that property, has it too. *)
Theorem heap_end_tracks_memory c s r s' :
  exec c s = Ok r s' ->
  stores_in_heap c s r ->
  (exists h, c = ResetHeap h) \/ heap_end s = wrap32 (pages s * PAGESIZE) ->
  heap_end s' = wrap32 (pages s' * PAGESIZE).
Proof.
  intros H _ Hc.
  destruct (exec_frame _ _ _ _ H) as (_ & _ & _ & [[Hhe Hpg] | Hhe]);
    [| exact Hhe].
  destruct Hc as [[h ->] | Hc].
  - simpl in H.
    unfold reset_heap, get_heap_end, memory_size, bind, modify, gets, ret in H.
    inv_ok. reflexivity.
  - rewrite Hhe, Hpg. exact Hc.
Qed.

Lemma heap_end_tracks_memory_witness :
  heap_end grown_heap = wrap32 (pages grown_heap * PAGESIZE).
Proof.
  apply (heap_end_tracks_memory (Malloc 70000) growable_heap 1028 grown_heap).
  - reflexivity.
  - vm_compute. discriminate.
  - right. reflexivity.
Defined.

(** X17.  The payloads of a run of genuine allocations never overlap and
    never touch a header: each payload starts at least one header past the
    end of the payload before it (the first one past the cursor the run
    started from), and the last one ends at or below the final cursor. *)
Theorem malloc_all_payloads_apart sizes s ps s' :
  no_wrap_all (next s) sizes ->
  malloc_all sizes s = Ok ps s' ->
  Forall (fun p => p <> NULL) ps ->
  payloads_apart (next s) sizes ps (next s').
Proof.
  intros Hw Hrun Hnn. apply (malloc_all_apart sizes s); try assumption. lia.
Qed.

Lemma malloc_all_payloads_apart_witness :
  payloads_apart 1024 [8; 8] [1028; 1040] 1048.
Proof.
  apply (malloc_all_payloads_apart [8; 8] one_page_heap [1028; 1040] two_block_heap).
  - vm_compute. intuition congruence.
  - reflexivity.
  - repeat constructor; discriminate.
Defined.

(** X18.  Later allocations never overwrite an earlier header: after a run
    of genuine allocations the header of every block still holds the size
    that block was requested with, which is what [free] and [realloc] will
    read. *)
Theorem headers_survive_later_allocations sizes :
  forall s ps s',
    no_wrap_all (next s) sizes ->
    malloc_all sizes s = Ok ps s' ->
    Forall (fun p => p <> NULL) ps ->
    Forall2 (fun sz p => le32 (mem s') (region_for_ptr p) = sz) sizes ps.
Proof.
  induction sizes as [| sz rest IH]; intros s ps s' Hw Hrun Hnn.
  - simpl in Hrun. unfold ret in Hrun. inv_ok. constructor.
  - destruct (malloc_all_cons _ _ _ _ _ Hrun) as (p & s1 & ps' & HA & Hrest & ->).
    inversion Hnn as [| ? ? Hp Hnn']; subst.
    destruct Hw as [Hw Hws].
    destruct (malloc_cases _ _ _ _ HA)
      as [(E0 & _) | (Ep & _ & _ & _ & En & Em & _)]; [contradiction |].
    rewrite <- En in Hws.
    destruct (malloc_all_frame _ _ _ _ Hws Hrest Hnn') as (_ & _ & _ & Hm').
    pose proof (region_after_bounds _ _ Hw) as Hbd.
    assert (Hu : u32 (next s)) by (unfold no_wrap, u32, SIZEOF_REGION in *; zlia).
    assert (Hus : u32 sz) by (unfold no_wrap, u32, SIZEOF_REGION in *; zlia).
    constructor; [| apply (IH s1); assumption].
    rewrite Ep, region_for_ptr_data by exact Hu.
    rewrite (le32_ext (mem s1)).
    + rewrite Em. apply le32_put32. exact Hus.
    + intros x Hx. apply Hm'.
      unfold no_wrap, SIZEOF_REGION in *. lia.
Qed.

Lemma headers_survive_later_allocations_witness :
  Forall2 (fun sz p => le32 (mem two_block_heap) (region_for_ptr p) = sz)
    [8; 8] [1028; 1040].
Proof.
  apply (headers_survive_later_allocations [8; 8] one_page_heap).
  - vm_compute. intuition congruence.
  - reflexivity.
  - repeat constructor; discriminate.
Defined.

(** X19.  A reset forgets the history.  What the first [malloc] after
    [reset_heap] returns depends on the new start address, the request and
    the size and ceiling of the memory only: not on the old statics and not
    on any byte in memory. *)
Theorem reset_forgets_history h size s t :
  pages s = pages t -> max_pages s = max_pages t ->
  returned ((reset_heap h ;;; malloc size) s) =
  returned ((reset_heap h ;;; malloc size) t).
Proof.
  intros Hp Hmx. destruct s, t. simpl in Hp, Hmx. subst.
  cbv beta iota zeta delta
    [bind reset_heap get_heap_end memory_size modify gets ret
     heap_start heap_end next mem pages max_pages
     set_heap_start set_heap_end set_next].
  apply malloc_returned_mem_indep.
Qed.

Lemma reset_forgets_history_witness :
  returned ((reset_heap 2048 ;;; malloc 16) two_block_heap) =
  returned ((reset_heap 2048 ;;; malloc 16) one_page_heap).
Proof.
  apply (reset_forgets_history 2048 16 two_block_heap one_page_heap);
    reflexivity.
Defined.
